(** * qelos/transformer.py: multi-head attention and incremental decoding

    A shallow embedding of [MultiHeadAttention] and of the sequence-to-sequence
    driver [TS2S], with the properties of their incremental ("cell mode")
    protocol.

    Conventions of the embedding.
    - Tensor entries are real numbers (Stdlib [R]): float32 rounding and
      overflow are not modelled.  The two non-finite values that the code
      itself manufactures are kept: [log 0 = -inf] on a masked score and the
      undefined value (NaN) of [0/0], which arises when a row of scores is
      masked at every key or when scores are divided by [sqrt 0].
    - A tensor is its sizes together with an index function; entries outside
      the sizes are irrelevant.  [view] on a contiguous tensor is modelled by
      its flat (row-major) index.
    - A Python object with mutable attributes is a record; a method is a
      computation in a monad that threads the object and may raise.  The
      object survives a raise with whatever was assigned before it.
    - Both dropout layers are taken at rate 0, the constructor's default,
      where they are the identity. *)

From Stdlib Require Import Reals ZArith List Bool Arith Lia Lra.
Import ListNotations.

(** ** Exceptions and the object monad *)

Inductive exn : Type :=
| AssertionError
| TypeError
| AttributeError
| ZeroDivisionError
| IndexError
| RuntimeError
| HorizonExceeded (horizon : Z) (history_length : nat)
| WrongInCellMode
| LmModeUnsupported.

Definition result (A : Type) : Type := (exn + A)%type.

Definition rbind {A B : Type} (r : result A) (f : A -> result B) : result B :=
  match r with
  | inl e => inl e
  | inr a => f a
  end.

(** [M S A]: a method of an object of state [S] returning an [A]. *)
Definition M (S A : Type) : Type := S -> result A * S.

Definition ret {S A : Type} (a : A) : M S A := fun s => (inr a, s).

Definition bind {S A B : Type} (m : M S A) (f : A -> M S B) : M S B :=
  fun s => match m s with
           | (inl e, s') => (inl e, s')
           | (inr a, s') => f a s'
           end.

Definition raise {S A : Type} (e : exn) : M S A := fun s => (inl e, s).

Definition gets {S A : Type} (f : S -> A) : M S A := fun s => (inr (f s), s).

Definition modify {S : Type} (f : S -> S) : M S unit := fun s => (inr tt, f s).

Definition lift {S A : Type} (r : result A) : M S A := fun s => (r, s).

Definition assert {S : Type} (b : bool) : M S unit :=
  if b then ret tt else raise AssertionError.

Declare Scope obj_scope.
Delimit Scope obj_scope with obj.
Notation "x <- m ;; k" := (bind m (fun x => k))
  (at level 61, m at next level, right associativity) : obj_scope.
Notation "m ;; k" := (bind m (fun _ => k))
  (at level 61, right associativity) : obj_scope.
Notation "'let?' x := r 'in' k" := (rbind r (fun x => k))
  (at level 61, x pattern, r at next level, right associativity) : obj_scope.
Open Scope obj_scope.

(** ** Tensors *)

Definition device := nat.

Record tensor2 (A : Type) : Type := Tensor2
  { t2_size0 : nat; t2_size1 : nat;
    t2_elt : nat -> nat -> A }.

Record tensor3 (A : Type) : Type := Tensor3
  { t3_device : device;
    t3_size0 : nat; t3_size1 : nat; t3_size2 : nat;
    t3_elt : nat -> nat -> nat -> A }.

Record tensor4 (A : Type) : Type := Tensor4
  { t4_size0 : nat; t4_size1 : nat; t4_size2 : nat; t4_size3 : nat;
    t4_elt : nat -> nat -> nat -> nat -> A }.

Arguments Tensor2 {A}.
Arguments t2_size0 {A}.
Arguments t2_size1 {A}.
Arguments t2_elt {A}.
Arguments Tensor3 {A}.
Arguments t3_device {A}.
Arguments t3_size0 {A}.
Arguments t3_size1 {A}.
Arguments t3_size2 {A}.
Arguments t3_elt {A}.
Arguments Tensor4 {A}.
Arguments t4_size0 {A}.
Arguments t4_size1 {A}.
Arguments t4_size2 {A}.
Arguments t4_size3 {A}.
Arguments t4_elt {A}.

(** Scores after scaling and masking: a real, [-inf] or NaN. *)
Inductive score : Type :=
| Fin (r : R)
| MinusInf
| NaN.

(** Arithmetic on possibly undefined reals ([None] is NaN). *)
Definition oadd (a b : option R) : option R :=
  match a, b with
  | Some x, Some y => Some (x + y)%R
  | _, _ => None
  end.

Definition omul (a b : option R) : option R :=
  match a, b with
  | Some x, Some y => Some (x * y)%R
  | _, _ => None
  end.

(** [sum_n n f] is the sum of [f 0 .. f (n-1)]. *)
Fixpoint sum_n (n : nat) (f : nat -> R) : R :=
  match n with
  | O => 0%R
  | S m => (sum_n m f + f m)%R
  end.

Fixpoint osum_n (n : nat) (f : nat -> option R) : option R :=
  match n with
  | O => Some 0%R
  | S m => oadd (osum_n m f) (f m)
  end.

Definition all_below (n : nat) (p : nat -> bool) : bool :=
  forallb p (seq 0 n).

Definition any_below (n : nat) (p : nat -> bool) : bool :=
  existsb p (seq 0 n).

(** *** Broadcasting *)

Definition bdim (a b : nat) : option nat :=
  if a =? b then Some a
  else if a =? 1 then Some b
  else if b =? 1 then Some a
  else None.

Definition bidx (n i : nat) : nat := if n =? 1 then 0 else i.

(** The entries of [f x y] broadcast to the sizes [n0 .. n3]. *)
Definition zip4 {A B C : Type} (f : A -> B -> C) (n0 n1 n2 n3 : nat)
    (x : tensor4 A) (y : tensor4 B) : tensor4 C :=
  Tensor4 n0 n1 n2 n3
    (fun a b c d =>
       f (t4_elt x (bidx (t4_size0 x) a) (bidx (t4_size1 x) b)
                   (bidx (t4_size2 x) c) (bidx (t4_size3 x) d))
         (t4_elt y (bidx (t4_size0 y) a) (bidx (t4_size1 y) b)
                   (bidx (t4_size2 y) c) (bidx (t4_size3 y) d))).

Definition broadcast4 {A B C : Type} (f : A -> B -> C)
    (x : tensor4 A) (y : tensor4 B) : result (tensor4 C) :=
  match bdim (t4_size0 x) (t4_size0 y), bdim (t4_size1 x) (t4_size1 y),
        bdim (t4_size2 x) (t4_size2 y), bdim (t4_size3 x) (t4_size3 y) with
  | Some n0, Some n1, Some n2, Some n3 => inr (zip4 f n0 n1 n2 n3 x y)
  | _, _, _, _ => inl RuntimeError
  end.

Definition map4 {A B : Type} (f : A -> B) (x : tensor4 A) : tensor4 B :=
  Tensor4 (t4_size0 x) (t4_size1 x) (t4_size2 x) (t4_size3 x)
          (fun a b c d => f (t4_elt x a b c d)).

(** *** [view] and [torch.cat] *)

Definition numel3 {A : Type} (t : tensor3 A) : nat :=
  t3_size0 t * t3_size1 t * t3_size2 t.

(** Entry of a contiguous 3-d tensor at a flat row-major index. *)
Definition flat3 {A : Type} (t : tensor3 A) (i : nat) : A :=
  t3_elt t (i / (t3_size1 t * t3_size2 t))
           ((i / t3_size2 t) mod t3_size1 t)
           (i mod t3_size2 t).

Definition reshape4 {A : Type} (t : tensor3 A) (n0 n1 n2 n3 : nat)
    : tensor4 A :=
  Tensor4 n0 n1 n2 n3
          (fun b s h d => flat3 t (((b * n1 + s) * n2 + h) * n3 + d)).

(** [t.view(n0, n1, n2, n3)] *)
Definition view4 {A : Type} (t : tensor3 A) (n0 n1 n2 n3 : nat)
    : result (tensor4 A) :=
  if numel3 t =? n0 * n1 * n2 * n3 then inr (reshape4 t n0 n1 n2 n3)
  else inl RuntimeError.

Definition append1 {A : Type} (x y : tensor4 A) : tensor4 A :=
  Tensor4 (t4_size0 x) (t4_size1 x + t4_size1 y) (t4_size2 x) (t4_size3 x)
          (fun b s h d =>
             if s <? t4_size1 x then t4_elt x b s h d
             else t4_elt y b (s - t4_size1 x) h d).

(** [torch.cat([x, y], 1)] *)
Definition cat1 {A : Type} (x y : tensor4 A) : result (tensor4 A) :=
  if (t4_size0 x =? t4_size0 y) && (t4_size2 x =? t4_size2 y)
     && (t4_size3 x =? t4_size3 y)
  then inr (append1 x y)
  else inl RuntimeError.

(** [x.size()[:-1] == y.size()[:-1]] *)
Definition same_leading_sizes {A : Type} (x y : tensor4 A) : bool :=
  (t4_size0 x =? t4_size0 y) && (t4_size1 x =? t4_size1 y)
  && (t4_size2 x =? t4_size2 y).

(** ** [nn.Linear] and [nn.Embedding] *)

Record Linear : Type := MkLinear
  { in_features : nat; out_features : nat;
    weight : nat -> nat -> R;      (* out_features x in_features *)
    bias : nat -> R }.

Definition Linear_apply (l : Linear) (x : tensor3 R) : tensor3 R :=
  Tensor3 (t3_device x) (t3_size0 x) (t3_size1 x) (out_features l)
    (fun b s o =>
       (sum_n (in_features l) (fun j => t3_elt x b s j * weight l o j)
        + bias l o)%R).

Definition Linear_forward (l : Linear) (x : tensor3 R) : result (tensor3 R) :=
  if t3_size2 x =? in_features l then inr (Linear_apply l x)
  else inl RuntimeError.

(** The output projection reads mixed values, which may be undefined. *)
Definition Linear_apply_o (l : Linear) (x : tensor3 (option R))
    : tensor3 (option R) :=
  Tensor3 (t3_device x) (t3_size0 x) (t3_size1 x) (out_features l)
    (fun b s o =>
       oadd (osum_n (in_features l)
               (fun j => omul (t3_elt x b s j) (Some (weight l o j))))
            (Some (bias l o))).

Definition Linear_forward_o (l : Linear) (x : tensor3 (option R))
    : result (tensor3 (option R)) :=
  if t3_size2 x =? in_features l then inr (Linear_apply_o l x)
  else inl RuntimeError.

Record Embedding : Type := MkEmbedding
  { num_embeddings : nat; embedding_dim : nat;
    emb_weight : nat -> nat -> R }.

Definition lookup (e : Embedding) (dv : device) (n0 n1 : nat)
    (idx : nat -> nat -> Z) : tensor3 R :=
  Tensor3 dv n0 n1 (embedding_dim e)
          (fun i j d => emb_weight e (Z.to_nat (idx i j)) d).

(** Lookup of an [n0 x n1] matrix of indices; an index outside the table
    raises. *)
Definition Embedding_forward (e : Embedding) (dv : device) (n0 n1 : nat)
    (idx : nat -> nat -> Z) : result (tensor3 R) :=
  if all_below n0 (fun i => all_below n1 (fun j =>
       (0 <=? idx i j)%Z && (idx i j <? Z.of_nat (num_embeddings e))%Z))
  then inr (lookup e dv n0 n1 idx)
  else inl IndexError.

(** ** [get_sinusoid_encoding_table] *)

Definition cal_angle (dim : nat) (position : Z) (hid_idx : nat) : R :=
  (IZR position / Rpower 10000 (2 * INR (hid_idx / 2) / INR dim))%R.

(** Rows are the positions [start .. seqlen-1]; even columns hold the sine
    and odd columns the cosine of the angle.  With no row at all numpy
    builds a 1-d array and the column slice raises. *)
Definition get_sinusoid_encoding_table (seqlen : Z) (dim : nat) (start : Z)
    : result Embedding :=
  let rows := Z.to_nat (seqlen - start) in
  if rows =? 0 then inl IndexError
  else inr (MkEmbedding rows dim
              (fun r j =>
                 let a := cal_angle dim (start + Z.of_nat r) j in
                 if Nat.even j then sin a else cos a)).

(** ** [class MultiHeadAttention] *)

Module MultiHeadAttention.

(** The [relpos] argument: [False], [True] or ["full"]. *)
Inductive relpos_flag : Type :=
| RelposFalse
| RelposTrue
| RelposFull.

(** Attributes assigned once by [__init__]. *)
Record params : Type := MkParams
  { numheads : nat; indim : nat;
    bidir : bool; scale : bool;
    d_k : nat; d_v : nat;
    q_proj : Linear; k_proj : Linear; v_proj : Linear;
    relpos : relpos_flag;
    relpos_emb : option Embedding;
    maxlen : Z;
    relpos_k_proj : option Linear;
    relpos_u : option (tensor2 R);
    relpos_v : option (tensor2 R);
    vw_proj : Linear }.

(** The object.  [relpos_emb_calls] and [relpos_proj_calls] are not
    attributes of the source: they count the calls of [self.relpos_emb] and
    of [self.k_proj] on the relative-position vectors, the two events a
    forward hook on these sub-modules would observe. *)
Record t : Type := MkT
  { hp : params;
    _cache_relpos_vec : option (tensor3 R);
    _cache_relpos_sizes : option (nat * nat);
    _cell_mode : bool;
    _horizon : option Z;
    _prev_k : option (tensor4 R);
    _prev_v : option (tensor4 R);
    _lm_mode : bool;
    relpos_emb_calls : nat;
    relpos_proj_calls : nat }.

Definition set_cache_relpos_vec (x : option (tensor3 R)) (c : t) : t :=
  MkT (hp c) x (_cache_relpos_sizes c) (_cell_mode c) (_horizon c)
      (_prev_k c) (_prev_v c) (_lm_mode c)
      (relpos_emb_calls c) (relpos_proj_calls c).

Definition set_cache_relpos_sizes (x : option (nat * nat)) (c : t) : t :=
  MkT (hp c) (_cache_relpos_vec c) x (_cell_mode c) (_horizon c)
      (_prev_k c) (_prev_v c) (_lm_mode c)
      (relpos_emb_calls c) (relpos_proj_calls c).

Definition set_cell_mode_attr (x : bool) (c : t) : t :=
  MkT (hp c) (_cache_relpos_vec c) (_cache_relpos_sizes c) x (_horizon c)
      (_prev_k c) (_prev_v c) (_lm_mode c)
      (relpos_emb_calls c) (relpos_proj_calls c).

Definition set_horizon (x : option Z) (c : t) : t :=
  MkT (hp c) (_cache_relpos_vec c) (_cache_relpos_sizes c) (_cell_mode c) x
      (_prev_k c) (_prev_v c) (_lm_mode c)
      (relpos_emb_calls c) (relpos_proj_calls c).

Definition set_prev_k (x : option (tensor4 R)) (c : t) : t :=
  MkT (hp c) (_cache_relpos_vec c) (_cache_relpos_sizes c) (_cell_mode c)
      (_horizon c) x (_prev_v c) (_lm_mode c)
      (relpos_emb_calls c) (relpos_proj_calls c).

Definition set_prev_v (x : option (tensor4 R)) (c : t) : t :=
  MkT (hp c) (_cache_relpos_vec c) (_cache_relpos_sizes c) (_cell_mode c)
      (_horizon c) (_prev_k c) x (_lm_mode c)
      (relpos_emb_calls c) (relpos_proj_calls c).

Definition set_lm_mode (x : bool) (c : t) : t :=
  MkT (hp c) (_cache_relpos_vec c) (_cache_relpos_sizes c) (_cell_mode c)
      (_horizon c) (_prev_k c) (_prev_v c) x
      (relpos_emb_calls c) (relpos_proj_calls c).

Definition count_relpos_emb_call (c : t) : t :=
  MkT (hp c) (_cache_relpos_vec c) (_cache_relpos_sizes c) (_cell_mode c)
      (_horizon c) (_prev_k c) (_prev_v c) (_lm_mode c)
      (S (relpos_emb_calls c)) (relpos_proj_calls c).

Definition count_relpos_proj_call (c : t) : t :=
  MkT (hp c) (_cache_relpos_vec c) (_cache_relpos_sizes c) (_cell_mode c)
      (_horizon c) (_prev_k c) (_prev_v c) (_lm_mode c)
      (relpos_emb_calls c) (S (relpos_proj_calls c)).

(** *** [__init__]

    The values drawn by [nn.init.normal_], [nn.init.xavier_normal_] and the
    default initialisation of [nn.Linear] are an argument. *)
Record draws : Type := MkDraws
  { q_w : nat -> nat -> R;
    k_w : nat -> nat -> R;
    v_w : nat -> nat -> R;
    relpos_k_w : nat -> nat -> R;
    relpos_k_b : nat -> R;
    relpos_u_w : nat -> nat -> R;
    relpos_v_w : nat -> nat -> R;
    vw_w : nat -> nat -> R }.

Definition zeros : nat -> R := fun _ => 0%R.

(** Sizes are natural numbers; [indim], [kdim], [vdim] and [numheads]
    default to [None].  There is no test that [numheads] divides [kdim] or
    [vdim]: [//] rounds down. *)
Definition __init__ (indim kdim vdim : option nat) (bidir : bool)
    (numheads : option nat) (scale : bool) (maxlen : Z)
    (relpos : relpos_flag) (w : draws) : result t :=
  let vdim := match vdim with None => indim | Some _ => vdim end in
  let kdim := match kdim with None => indim | Some _ => kdim end in
  match indim, kdim, vdim, numheads with
  | Some indim, Some kdim, Some vdim, Some numheads =>
      if numheads =? 0 then inl ZeroDivisionError else
      let d_k := kdim / numheads in
      let d_v := vdim / numheads in
      let q_proj := MkLinear indim (numheads * d_k) (q_w w) zeros in
      let k_proj := MkLinear indim (numheads * d_k) (k_w w) zeros in
      let v_proj := MkLinear indim (numheads * d_v) (v_w w) zeros in
      (* std = np.sqrt(2.0 / (indim + d_k)), np.sqrt(2.0 / (indim + d_v)) *)
      if (indim + d_k =? 0) || (indim + d_v =? 0) then inl ZeroDivisionError
      else
      let? emb :=
        match relpos with
        | RelposFalse => inr None
        | _ => let? waves := get_sinusoid_encoding_table maxlen indim (- maxlen)
               in inr (Some waves)
        end in
      let full :=
        match relpos with
        | RelposFull =>
            (Some (MkLinear indim (numheads * d_k)
                            (relpos_k_w w) (relpos_k_b w)),
             Some (Tensor2 numheads d_k (relpos_u_w w)),
             Some (Tensor2 numheads d_k (relpos_v_w w)))
        | _ => (None, None, None)
        end in
      let vw_proj := MkLinear vdim indim (vw_w w) zeros in
      inr (MkT (MkParams numheads indim bidir scale d_k d_v
                         q_proj k_proj v_proj relpos emb maxlen
                         (fst (fst full)) (snd (fst full)) (snd full)
                         vw_proj)
               None None false None None None false 0 0)
  | _, _, _, _ => inl TypeError
  end.

(** *** Cell mode *)

Definition set_cell_mode (val : bool) (horizon : option Z) (lm_mode : bool)
    : M t unit :=
  (if val then
     assert (match horizon with Some _ => true | None => false end) ;;
     b <- gets (fun c => bidir (hp c)) ;;
     assert (Bool.eqb b false)
   else ret tt) ;;
  modify (set_cell_mode_attr val) ;;
  modify (set_horizon horizon) ;;
  modify (set_lm_mode lm_mode).

Definition epoch_reset : M t unit :=
  modify (set_prev_k None) ;;
  modify (set_prev_v None).

Definition rec_reset : M t unit :=
  lm <- gets _lm_mode ;;
  if negb lm then epoch_reset else ret tt.

(** [update_prev]: the new step is appended first and the length is tested
    afterwards; the two slicing assignments that follow the [raise] in the
    source can never run. *)
Definition update_prev (k v : tensor4 R) : M t (tensor4 R * tensor4 R) :=
  assert (t4_size1 k =? 1) ;;
  assert (t4_size1 v =? 1) ;;
  pk <- gets _prev_k ;;
  match pk with
  | None =>
      pv <- gets _prev_v ;;
      assert (match pv with None => true | Some _ => false end) ;;
      modify (set_prev_k (Some k)) ;;
      modify (set_prev_v (Some v))
  | Some pk =>
      nk <- lift (cat1 pk k) ;;
      modify (set_prev_k (Some nk)) ;;
      pv <- gets _prev_v ;;
      match pv with
      | None => raise TypeError
      | Some pv =>
          nv <- lift (cat1 pv v) ;;
          modify (set_prev_v (Some nv))
      end
  end ;;
  pk <- gets _prev_k ;;
  pv <- gets _prev_v ;;
  h <- gets _horizon ;;
  match pk, pv, h with
  | Some pk, Some pv, Some h =>
      (if (Z.of_nat (t4_size1 pk) >? h)%Z
       then raise (HorizonExceeded h (t4_size1 pk))
       else ret tt) ;;
      assert (same_leading_sizes pk pv) ;;
      ret (pk, pv)
  | _, _, _ => raise TypeError
  end.

(** *** The tensor operations of [forward]

    The contractions require the paired sizes to agree; torch's broadcasting
    of a size-1 axis inside [einsum] does not occur in [forward], where all
    operands are shaped by [view] from the same sizes. *)

(** [self.proj(x).view(batsize, x.size(1), numheads, d)] *)
Definition project (l : Linear) (x : tensor3 R) (batsize heads d : nat)
    : result (tensor4 R) :=
  let? y := Linear_forward l x in
  view4 y batsize (t3_size1 x) heads d.

Definition contract_qk (q k : tensor4 R) : tensor4 R :=
  Tensor4 (t4_size0 q) (t4_size2 q) (t4_size1 q) (t4_size1 k)
          (fun b h s z =>
             sum_n (t4_size3 q)
                   (fun d => t4_elt q b s h d * t4_elt k b z h d)%R).

(** [torch.einsum("bshd,bzhd->bhsz", (q, k))] *)
Definition einsum_bshd_bzhd (q k : tensor4 R) : result (tensor4 R) :=
  if (t4_size0 q =? t4_size0 k) && (t4_size2 q =? t4_size2 k)
     && (t4_size3 q =? t4_size3 k)
  then inr (contract_qk q k)
  else inl RuntimeError.

Definition contract_qr (q r : tensor4 R) : tensor4 R :=
  Tensor4 (t4_size0 q) (t4_size2 q) (t4_size1 q) (t4_size1 r)
          (fun b h s z =>
             sum_n (t4_size3 q)
                   (fun d => t4_elt q b s h d * t4_elt r s z h d)%R).

(** [torch.einsum("bshd,szhd->bhsz", (q, r))] *)
Definition einsum_bshd_szhd (q r : tensor4 R) : result (tensor4 R) :=
  if (t4_size1 q =? t4_size0 r) && (t4_size2 q =? t4_size2 r)
     && (t4_size3 q =? t4_size3 r)
  then inr (contract_qr q r)
  else inl RuntimeError.

Definition contract_u (u : tensor2 R) (kR : tensor4 R) : tensor4 R :=
  Tensor4 (t4_size0 kR) (t2_size0 u) 1 (t4_size1 kR)
          (fun b h _ z =>
             sum_n (t2_size1 u)
                   (fun d => t2_elt u h d * t4_elt kR b z h d)%R).

(** [torch.einsum("hd,bzhd->bhz", (u, kR)).unsqueeze(2)] *)
Definition einsum_hd_bzhd (u : tensor2 R) (kR : tensor4 R)
    : result (tensor4 R) :=
  if (t2_size0 u =? t4_size2 kR) && (t2_size1 u =? t4_size3 kR)
  then inr (contract_u u kR)
  else inl RuntimeError.

Definition contract_v (v : tensor2 R) (vecR : tensor4 R) : tensor4 R :=
  Tensor4 1 (t2_size0 v) (t4_size0 vecR) (t4_size1 vecR)
          (fun _ h s z =>
             sum_n (t2_size1 v)
                   (fun d => t2_elt v h d * t4_elt vecR s z h d)%R).

(** [torch.einsum("hd,szhd->hsz", (v, vecR)).unsqueeze(0)] *)
Definition einsum_hd_szhd (v : tensor2 R) (vecR : tensor4 R)
    : result (tensor4 R) :=
  if (t2_size0 v =? t4_size2 vecR) && (t2_size1 v =? t4_size3 vecR)
  then inr (contract_v v vecR)
  else inl RuntimeError.

Definition mix (w : tensor4 (option R)) (v : tensor4 R)
    : tensor4 (option R) :=
  Tensor4 (t4_size0 w) (t4_size2 w) (t4_size1 w) (t4_size3 v)
          (fun b s h d =>
             osum_n (t4_size3 w)
                    (fun z => omul (t4_elt w b h s z)
                                   (Some (t4_elt v b z h d)))).

(** [torch.einsum("bhsz,bzhd->bshd", (w, v))] *)
Definition einsum_bhsz_bzhd (w : tensor4 (option R)) (v : tensor4 R)
    : result (tensor4 (option R)) :=
  if (t4_size0 w =? t4_size0 v) && (t4_size1 w =? t4_size2 v)
     && (t4_size3 w =? t4_size1 v)
  then inr (mix w v)
  else inl RuntimeError.

(** [w / math.sqrt(d_k)].  With [d_k = 0] every contraction above is an
    empty sum, so the quotient is [0/0]. *)
Definition div_sqrt (d_k : nat) (a : R) : score :=
  if d_k =? 0 then NaN else Fin (a / sqrt (INR d_k))%R.

(** [mask.float().view(mask.size(0), 1, 1, mask.size(1))] *)
Definition float_mask (mask : tensor2 bool) : tensor4 R :=
  Tensor4 (t2_size0 mask) 1 1 (t2_size1 mask)
          (fun b _ _ z => if t2_elt mask b z then 1%R else 0%R).

(** [torch.tril(torch.ones(n, n)).unsqueeze(0).unsqueeze(0)] *)
Definition tril_ones (n : nat) : tensor4 R :=
  Tensor4 1 1 n n (fun _ _ i j => if j <=? i then 1%R else 0%R).

(** [m[:, :, -n:, :]]; Python reads [-0:] as the whole axis. *)
Definition last_rows (n : nat) (m : tensor4 R) : tensor4 R :=
  let start := if n =? 0 then 0 else t4_size2 m - n in
  Tensor4 (t4_size0 m) (t4_size1 m) (t4_size2 m - start) (t4_size3 m)
          (fun a b i j => t4_elt m a b (start + i) j).

(** [s + torch.log(m)] for a mask entry [m]. *)
Definition add_log (s : score) (m : R) : score :=
  match s with
  | Fin a => if Req_dec_T m 0 then MinusInf else Fin (a + ln m)%R
  | MinusInf => MinusInf
  | NaN => NaN
  end.

Definition is_nan (s : score) : bool :=
  match s with NaN => true | _ => false end.

Definition is_minus_inf (s : score) : bool :=
  match s with MinusInf => true | _ => false end.

Definition sexp (s : score) : R :=
  match s with Fin r => exp r | _ => 0%R end.

(** Softmax of one row of [n] scores: undefined throughout when a score is
    NaN or every score is [-inf]. *)
Definition softmax_row (n : nat) (row : nat -> score) (z : nat) : option R :=
  if any_below n (fun j => is_nan (row j))
     || all_below n (fun j => is_minus_inf (row j))
  then None
  else Some (sexp (row z) / sum_n n (fun j => sexp (row j)))%R.

(** [nn.Softmax(dim=-1)] *)
Definition Softmax (w : tensor4 score) : tensor4 (option R) :=
  Tensor4 (t4_size0 w) (t4_size1 w) (t4_size2 w) (t4_size3 w)
          (fun b h s z => softmax_row (t4_size3 w) (t4_elt w b h s) z).

(** [vw.contiguous().view(batsize, seqlen, heads * dim_per_head)] *)
Definition merge_heads {A : Type} (dv : device) (vw : tensor4 A) : tensor3 A :=
  Tensor3 dv (t4_size0 vw) (t4_size1 vw) (t4_size2 vw * t4_size3 vw)
          (fun b s o => t4_elt vw b s (o / t4_size3 vw) (o mod t4_size3 vw)).

(** The relative-position tensors of one call: [relpos_vec_heads] and, in
    "full" mode, [relpos_kR] and [relpos_vecR]. *)
Definition relpos_tensors : Type :=
  option (tensor4 R * option (tensor4 R * tensor4 R)).

(** Index into the sinusoid table of query [i] and key [j], the query being
    right-aligned on the keys. *)
Definition relpos_index (maxlen : Z) (q_len k_len i j : nat) : Z :=
  (Z.of_nat j - (Z.of_nat i + Z.of_nat (k_len - q_len)) + maxlen)%Z.

(** Lines 180-195: content scores, relative-position terms and scaling. *)
Definition scores (p : params) (q k : tensor4 R) (rel : relpos_tensors)
    : result (tensor4 score) :=
  let? w := einsum_bshd_bzhd q k in
  let? w :=
    match rel with
    | None => inr w
    | Some (relpos_vec_heads, full) =>
        let? w_relpos := einsum_bshd_szhd q relpos_vec_heads in
        let? w := broadcast4 Rplus w w_relpos in
        match full with
        | None => inr w
        | Some (relpos_kR, relpos_vecR) =>
            match relpos_u p, relpos_v p with
            | Some u, Some v =>
                let? w_uR := einsum_hd_bzhd u relpos_kR in
                let? w_vR := einsum_hd_szhd v relpos_vecR in
                let? w := broadcast4 Rplus w w_uR in
                broadcast4 Rplus w w_vR
            | _, _ => inl AttributeError
            end
        end
    end in
  inr (if scale p then map4 (div_sqrt (d_k p)) w else map4 Fin w).

(** Lines 198-208: the padding mask times, for a unidirectional module, the
    causal mask cut to the last [q_len] rows. *)
Definition whole_mask (p : params) (q_len k_len : nat)
    (mask : option (tensor2 bool)) : result (option (tensor4 R)) :=
  let wholemask := option_map float_mask mask in
  if bidir p then inr wholemask
  else
    let causality_mask := tril_ones k_len in
    let causality_mask :=
      if q_len <? t4_size2 causality_mask
      then last_rows q_len causality_mask else causality_mask in
    match wholemask with
    | Some m => let? m := broadcast4 Rmult m causality_mask in inr (Some m)
    | None => inr (Some causality_mask)
    end.

(** Lines 180-216: the attention weights after softmax and dropout. *)
Definition attention_weights (p : params) (q k : tensor4 R)
    (rel : relpos_tensors) (mask : option (tensor2 bool))
    : result (tensor4 (option R)) :=
  let? w := scores p q k rel in
  let? wholemask := whole_mask p (t4_size1 q) (t4_size3 w) mask in
  let? w :=
    match wholemask with
    | Some m => broadcast4 add_log w m
    | None => inr w
    end in
  inr (Softmax w).

(** Lines 219-226: mixing the values and the output projection. *)
Definition output (p : params) (dv : device) (w : tensor4 (option R))
    (v : tensor4 R) : result (tensor3 (option R)) :=
  let? vw := einsum_bhsz_bzhd w v in
  Linear_forward_o (vw_proj p) (merge_heads dv vw).

(** *** [forward] *)

(** Lines 157-166: the table rows of a call with [q_len] queries and
    [k_len] keys, looked up and stored in the single slot. *)
Definition fill_relpos_cache (emb : Embedding) (x : tensor3 R)
    (q_len k_len : nat) : M t unit :=
  p <- gets hp ;;
  assert (q_len <=? k_len) ;;
  modify count_relpos_emb_call ;;
  relpos_vec <- lift (Embedding_forward emb (t3_device x) q_len k_len
                        (relpos_index (maxlen p) q_len k_len)) ;;
  modify (set_cache_relpos_vec (Some relpos_vec)) ;;
  modify (set_cache_relpos_sizes (Some (q_len, k_len))).

(** Lines 155-166: the slot is refilled when the sizes or the device differ
    from those of the cached entry. *)
Definition refresh_relpos_cache (emb : Embedding) (x : tensor3 R)
    (q_len k_len : nat) : M t unit :=
  sizes <- gets _cache_relpos_sizes ;;
  cached <- gets _cache_relpos_vec ;;
  stale <-
    match sizes with
    | Some (ql, kl) =>
        if (ql =? q_len) && (kl =? k_len)
        then match cached with
             | Some vec => ret (negb (t3_device vec =? t3_device x))
             | None => raise AttributeError
             end
        else ret true
    | None => ret true
    end ;;
  if stale : bool then fill_relpos_cache emb x q_len k_len else ret tt.

(** Lines 167-176: the projections of the cached rows [vec]; [k_proj] is
    applied to them on every call. *)
Definition relpos_projections (vec : tensor3 R) (_k : tensor3 R)
    (batsize q_len k_len : nat) : M t relpos_tensors :=
  p <- gets hp ;;
  modify count_relpos_proj_call ;;
  relpos_vec_proj <- lift (Linear_forward (k_proj p) vec) ;;
  relpos_vec_heads <-
    lift (view4 relpos_vec_proj q_len k_len (numheads p) (d_k p)) ;;
  match relpos_k_proj p with
  | None => ret (Some (relpos_vec_heads, None))
  | Some rk =>
      cm <- gets _cell_mode ;;
      if cm : bool then raise WrongInCellMode
      else
        relpos_kR <- lift (project rk _k batsize (numheads p) (d_k p)) ;;
        relpos_vecR <-
          lift (let? y := Linear_forward rk vec in
                view4 y q_len k_len (numheads p) (d_k p)) ;;
        ret (Some (relpos_vec_heads, Some (relpos_kR, relpos_vecR)))
  end.

(** Lines 155-176, the body of the relative-position branch. *)
Definition relpos_branch (emb : Embedding) (x _k : tensor3 R)
    (batsize q_len k_len : nat) : M t relpos_tensors :=
  refresh_relpos_cache emb x q_len k_len ;;
  cached <- gets _cache_relpos_vec ;;
  match cached with
  | None => raise TypeError
  | Some vec => relpos_projections vec _k batsize q_len k_len
  end.

(** Lines 152-177. *)
Definition relpos_vectors (x _k : tensor3 R) (batsize q_len k_len : nat)
    : M t relpos_tensors :=
  p <- gets hp ;;
  match relpos_emb p, relpos p with
  | Some emb, (RelposTrue | RelposFull) =>
      relpos_branch emb x _k batsize q_len k_len
  | _, _ => ret None
  end.

(** Lines 135-216 of [forward]: the attention weights [w] and the values
    [v] they are about to mix. *)
Definition attend (x : tensor3 R) (k v : option (tensor3 R))
    (mask : option (tensor2 bool))
    : M t (tensor4 (option R) * tensor4 R) :=
  cm <- gets _cell_mode ;;
  (if cm : bool then
     match mask with
     | Some _ => raise TypeError   (* [NotImplemented] is not callable *)
     | None => ret tt
     end
   else ret tt) ;;
  p <- gets hp ;;
  let batsize := t3_size0 x in
  let _q := x in
  let _k := match k with None => _q | Some k => k end in
  let _v := match v with None => _k | Some v => v end in
  q <- lift (project (q_proj p) _q batsize (numheads p) (d_k p)) ;;
  k <- lift (project (k_proj p) _k batsize (numheads p) (d_k p)) ;;
  v <- lift (project (v_proj p) _v batsize (numheads p) (d_v p)) ;;
  kv <- (if cm : bool then update_prev k v else ret (k, v)) ;;
  let k := fst kv in
  let v := snd kv in
  rel <- relpos_vectors x _k batsize (t4_size1 q) (t4_size1 k) ;;
  w <- lift (attention_weights p q k rel mask) ;;
  ret (w, v).

Definition forward (x : tensor3 R) (k v : option (tensor3 R))
    (mask : option (tensor2 bool)) : M t (tensor3 (option R)) :=
  wv <- attend x k v mask ;;
  p <- gets hp ;;
  lift (output p (t3_device x) (fst wv) (snd wv)).

End MultiHeadAttention.

(** ** [class TS2S]

    The encoder and the decoder are arguments of the constructor: the driver
    is modelled over any pair of modules with these methods. *)

Module TS2S.

Section Driver.

Variables X XMask Y YMask Ctx Out : Type.
Variables Enc Dec : Type.
Variable encoder_forward : X -> option XMask -> M Enc Ctx.
Variable decoder_forward :
  Y -> Ctx -> option YMask -> option XMask -> M Dec Out.
Variable decoder_set_cell_mode : bool -> option Z -> bool -> M Dec unit.

Record t : Type := MkT
  { encoder : Enc;
    decoder : Dec;
    _cell_mode : bool;
    _x : option X;
    _ctx : option Ctx;
    _ctxmask : option XMask }.

Definition set_encoder (e : Enc) (s : t) : t :=
  MkT e (decoder s) (_cell_mode s) (_x s) (_ctx s) (_ctxmask s).

Definition set_decoder (d : Dec) (s : t) : t :=
  MkT (encoder s) d (_cell_mode s) (_x s) (_ctx s) (_ctxmask s).

Definition set_cell_mode_attr (b : bool) (s : t) : t :=
  MkT (encoder s) (decoder s) b (_x s) (_ctx s) (_ctxmask s).

Definition set_x (x : option X) (s : t) : t :=
  MkT (encoder s) (decoder s) (_cell_mode s) x (_ctx s) (_ctxmask s).

Definition set_ctx (c : option Ctx) (s : t) : t :=
  MkT (encoder s) (decoder s) (_cell_mode s) (_x s) c (_ctxmask s).

Definition set_ctxmask (m : option XMask) (s : t) : t :=
  MkT (encoder s) (decoder s) (_cell_mode s) (_x s) (_ctx s) m.

(** A call of a method of [self.encoder], of [self.decoder]. *)
Definition on_encoder {A : Type} (m : M Enc A) : M t A :=
  fun s => let (r, e) := m (encoder s) in (r, set_encoder e s).

Definition on_decoder {A : Type} (m : M Dec A) : M t A :=
  fun s => let (r, d) := m (decoder s) in (r, set_decoder d s).

Definition rec_reset : M t unit :=
  modify (set_x None) ;;
  modify (set_ctx None) ;;
  modify (set_ctxmask None).

Definition set_cell_mode (val : bool) (horizon : option Z) (lm_mode : bool)
    : M t unit :=
  (if lm_mode then raise LmModeUnsupported else ret tt) ;;
  modify (set_cell_mode_attr val) ;;
  on_decoder (decoder_set_cell_mode val horizon lm_mode).

(** In cell mode the pair handed to the decoder is read back from
    [self._ctx] and [self._ctxmask]; on the branch that has just assigned
    them these are the encoder's output and the [xmask] of this call. *)
Definition forward (x : X) (y : Y) (xmask : option XMask)
    (ymask : option YMask) : M t Out :=
  cm <- gets _cell_mode ;;
  cx <-
    (if cm : bool then
       cached <- gets _ctx ;;
       match cached with
       | None =>
           ctx <- on_encoder (encoder_forward x xmask) ;;
           modify (set_ctx (Some ctx)) ;;
           modify (set_x (Some x)) ;;
           modify (set_ctxmask xmask) ;;
           ret (ctx, xmask)
       | Some ctx =>
           m <- gets _ctxmask ;;
           ret (ctx, m)
       end
     else
       ctx <- on_encoder (encoder_forward x xmask) ;;
       ret (ctx, xmask)) ;;
  on_decoder (decoder_forward y (fst cx) ymask (snd cx)).

(** The object after a list of forward calls, whatever each returned. *)
Fixpoint after_calls
    (calls : list (X * Y * option XMask * option YMask)) (s : t) : t :=
  match calls with
  | [] => s
  | (x, y, xmask, ymask) :: rest =>
      after_calls rest (snd (forward x y xmask ymask s))
  end.

End Driver.

Arguments MkT {X XMask Ctx Enc Dec}.
Arguments encoder {X XMask Ctx Enc Dec}.
Arguments decoder {X XMask Ctx Enc Dec}.
Arguments _cell_mode {X XMask Ctx Enc Dec}.
Arguments _x {X XMask Ctx Enc Dec}.
Arguments _ctx {X XMask Ctx Enc Dec}.
Arguments _ctxmask {X XMask Ctx Enc Dec}.
Arguments set_encoder {X XMask Ctx Enc Dec}.
Arguments set_decoder {X XMask Ctx Enc Dec}.
Arguments set_cell_mode_attr {X XMask Ctx Enc Dec}.
Arguments set_x {X XMask Ctx Enc Dec}.
Arguments set_ctx {X XMask Ctx Enc Dec}.
Arguments set_ctxmask {X XMask Ctx Enc Dec}.
Arguments on_encoder {X XMask Ctx Enc Dec A}.
Arguments on_decoder {X XMask Ctx Enc Dec A}.
Arguments rec_reset {X XMask Ctx Enc Dec}.
Arguments set_cell_mode {X XMask Ctx Enc Dec}.
Arguments forward {X XMask Y YMask Ctx Out Enc Dec}.
Arguments after_calls {X XMask Y YMask Ctx Out Enc Dec}.

End TS2S.

(** ** Notions used in the statements *)

Import MultiHeadAttention.



(** A caller's loop of self-attention calls that stops at the first raise. *)
Fixpoint forward_steps (xs : list (tensor3 R))
    : M t (list (tensor3 (option R))) :=
  match xs with
  | [] => ret []
  | x :: rest =>
      o <- forward x None None None ;;
      os <- forward_steps rest ;;
      ret (o :: os)
  end.

(** The object after a list of forward calls, whatever each returned. *)
Fixpoint after_steps (xs : list (tensor3 R)) (c : t) : t :=
  match xs with
  | [] => c
  | x :: rest => after_steps rest (snd (forward x None None None c))
  end.

(** Length of the key history, of the value history. *)
Definition history_length (h : option (tensor4 R)) : nat :=
  match h with
  | None => 0
  | Some k => t4_size1 k
  end.

(** The sizes of the layers agree with the head layout, as [__init__]
    leaves them when [numheads] divides [vdim]. *)
Definition well_formed (p : params) : bool :=
  (in_features (q_proj p) =? indim p)
  && (out_features (q_proj p) =? numheads p * d_k p)
  && (in_features (k_proj p) =? indim p)
  && (out_features (k_proj p) =? numheads p * d_k p)
  && (in_features (v_proj p) =? indim p)
  && (out_features (v_proj p) =? numheads p * d_v p)
  && (in_features (vw_proj p) =? numheads p * d_v p)
  && match relpos_emb p with
     | Some e => (embedding_dim e =? indim p)
                 && (Z.of_nat (num_embeddings e) =? 2 * maxlen p)%Z
                 && (1 <=? maxlen p)%Z
     | None => true
     end.

(** Every index that a call with [q_len] queries and [k_len] keys looks up
    lies in the sinusoid table (trivially so when the relative-position path
    is off). *)
Definition table_covers (p : params) (q_len k_len : nat) : bool :=
  match relpos_emb p, relpos p with
  | Some _, (RelposTrue | RelposFull) =>
      (q_len <=? k_len) && (Z.of_nat k_len <=? maxlen p + 1)%Z
      && (Z.of_nat q_len <=? maxlen p)%Z
  | _, _ => true
  end.

(** The cache is stale for a call: other sizes, or another device. *)
Definition stale_cache (c : t) (x : tensor3 R) (q_len k_len : nat) : Prop :=
  _cache_relpos_sizes c <> Some (q_len, k_len)
  \/ exists vec, _cache_relpos_vec c = Some vec
                 /\ t3_device vec <> t3_device x.

(** Everything but the relative-position cache and the call counters. *)
Definition same_but_cache (c c' : t) : Prop :=
  hp c' = hp c /\ _cell_mode c' = _cell_mode c /\ _horizon c' = _horizon c
  /\ _prev_k c' = _prev_k c /\ _prev_v c' = _prev_v c
  /\ _lm_mode c' = _lm_mode c.

(** The single-slot cache, when filled, holds what a lookup for its sizes
    on its device returns. *)
Definition cache_coherent (c : t) : Prop :=
  match _cache_relpos_sizes c with
  | None => True
  | Some (ql, kl) =>
      match _cache_relpos_vec c, relpos_emb (hp c) with
      | Some vec, Some emb =>
          ql <= kl /\
          Embedding_forward emb (t3_device vec) ql kl
            (relpos_index (maxlen (hp c)) ql kl) = inr vec
      | _, _ => False
      end
  end.

(** What a forward call leaves alone: the parameters and the three
    attributes set by [set_cell_mode]; and a coherent cache stays coherent. *)
Definition same_settings (c c' : t) : Prop :=
  hp c' = hp c /\ _cell_mode c' = _cell_mode c /\ _horizon c' = _horizon c
  /\ _lm_mode c' = _lm_mode c /\ (cache_coherent c -> cache_coherent c').

Definition keeps_settings {A : Type} (m : M t A) : Prop :=
  forall c : t, same_settings c (snd (m c)).

(** Two objects that differ at most in the content of their coherent caches
    and in their counters; a method agrees on them when it returns the same
    result on both and leaves them so related. *)
Definition twin (c1 c2 : t) : Prop :=
  same_but_cache c1 c2 /\ cache_coherent c1 /\ cache_coherent c2.

Definition agrees {A : Type} (m : M t A) : Prop :=
  forall c1 c2 : t,
    twin c1 c2 ->
    fst (m c1) = fst (m c2) /\ twin (snd (m c1)) (snd (m c2)).

(** ** Concrete objects for the examples *)

Definition zero_draws : draws :=
  MkDraws (fun _ _ => 0%R) (fun _ _ => 0%R) (fun _ _ => 0%R)
          (fun _ _ => 0%R) (fun _ => 0%R) (fun _ _ => 0%R)
          (fun _ _ => 0%R) (fun _ _ => 0%R).

(** The object [__init__] returns, or a blank one when it raises. *)
Definition constructed (r : result t) : t :=
  match r with
  | inr c => c
  | inl _ =>
      let l := MkLinear 0 0 (fun _ _ => 0%R) zeros in
      MkT (MkParams 0 0 true true 0 0 l l l RelposFalse None 0 None None None l)
          None None false None None None false 0 0
  end.

(** [MultiHeadAttention(2, numheads=1, bidir=False, relpos=...)] *)
Definition small_core (relpos : relpos_flag) : t :=
  constructed (__init__ (Some 2) None None false (Some 1) true 4 relpos
                        zero_draws).

(** A [(batsize, seqlen, dim)] tensor of zeros on device 0. *)
Definition zeros3 (batsize seqlen dim : nat) : tensor3 R :=
  Tensor3 0 batsize seqlen dim (fun _ _ _ => 0%R).

(** ** Closed forms of the tensors of a call *)

(** [self.proj(x).view(x.size(0), x.size(1), heads, d)] *)
Definition heads_of (l : Linear) (x : tensor3 R) (heads d : nat) : tensor4 R :=
  reshape4 (Linear_apply l x) (t3_size0 x) (t3_size1 x) heads d.







(** The relative-position tensors have the sizes of a call with [q_len]
    queries and [k_len] keys. *)
Definition rel_shaped (q_len k_len : nat) (rel : relpos_tensors) : Prop :=
  match rel with
  | None => True
  | Some (heads, full) =>
      t4_size0 heads = q_len /\ t4_size1 heads = k_len
      /\ match full with
         | None => True
         | Some (kR, vecR) =>
             t4_size1 kR = k_len
             /\ t4_size0 vecR = q_len /\ t4_size1 vecR = k_len
         end
  end.



(** The history after one more step. *)
Definition push (h : option (tensor4 R)) (k : tensor4 R) : tensor4 R :=
  match h with
  | None => k
  | Some pk => append1 pk k
  end.

(** Both histories hold [m] steps of [batsize] sequences. *)
Definition history_shaped (c : t) (batsize m : nat) : Prop :=
  match _prev_k c, _prev_v c with
  | None, None => m = 0
  | Some pk, Some pv =>
      t4_size0 pk = batsize /\ t4_size1 pk = m
      /\ t4_size2 pk = numheads (hp c) /\ t4_size3 pk = d_k (hp c)
      /\ t4_size0 pv = batsize /\ t4_size1 pv = m
      /\ t4_size2 pv = numheads (hp c) /\ t4_size3 pv = d_v (hp c)
  | _, _ => False
  end.



(** The input of one incremental step. *)
Definition step_input (p : params) (batsize : nat) (x : tensor3 R) : Prop :=
  t3_size0 x = batsize /\ t3_size1 x = 1 /\ t3_size2 x = indim p.

(** [small_core relpos] after [set_cell_mode(True, horizon=h)]. *)
Definition cell_core (relpos : relpos_flag) (h : Z) : t :=
  snd (set_cell_mode true (Some h) false (small_core relpos)).

(** [small_core relpos] after [set_cell_mode(True, horizon=h, lm_mode=True)]. *)
Definition lm_core (relpos : relpos_flag) (h : Z) : t :=
  snd (set_cell_mode true (Some h) true (small_core relpos)).

(** A toy encoder and decoder for the driver: the encoder doubles its input
    and counts its calls in its state, the decoder adds the context to its
    input and does the same. *)
Definition toy_encoder (x : nat) (xmask : option bool) : M nat nat :=
  fun calls => (inr (2 * x), S calls).

Definition toy_decoder (y ctx : nat) (ymask xmask : option bool)
    : M nat (nat * option bool) :=
  fun calls => (inr (y + ctx, xmask), S calls).

Definition toy_driver : TS2S.t nat bool nat nat nat :=
  TS2S.MkT 0 0 true None None None.


(** ** Further objects for the examples *)

(** [MultiHeadAttention(2, numheads=1, bidir=False, maxlen=1, relpos=True)]
    after [set_cell_mode(True, horizon=h)]: a table of two rows. *)
Definition short_table_core (h : Z) : t :=
  snd (set_cell_mode true (Some h) false
         (constructed (__init__ (Some 2) None None false (Some 1) true 1
                                RelposTrue zero_draws))).



(** ** [class PositionWiseFeedforward]

    The activation is an argument of the constructor ([nn.ReLU] by
    default); it is taken to act on each feature vector by itself, as the
    activations of [torch.nn] do on the last axis.  The dropout is at
    rate 0. *)

Module PositionWiseFeedforward.

Record t : Type := MkT
  { projA : Linear;
    projB : Linear;
    act : nat -> (nat -> option R) -> nat -> option R }.

(** [nn.ReLU] on a vector of any width. *)
Definition ReLU (width : nat) (row : nat -> option R) (j : nat)
    : option R :=
  option_map (Rmax 0) (row j).

(** [__init__]; [wA] and [wB] are the values drawn by [nn.init.normal_],
    whose standard deviation divides by [indim + dim]. *)
Definition __init__ (indim dim : nat)
    (activation : nat -> (nat -> option R) -> nat -> option R)
    (wA wB : nat -> nat -> R) : result t :=
  if indim + dim =? 0 then inl ZeroDivisionError
  else inr (MkT (MkLinear indim dim wA zeros) (MkLinear dim indim wB zeros)
                activation).

(** [self.act(h)] on a tensor. *)
Definition activate (m : t) (h : tensor3 (option R)) : tensor3 (option R) :=
  Tensor3 (t3_device h) (t3_size0 h) (t3_size1 h) (t3_size2 h)
          (fun b s j => act m (t3_size2 h) (t3_elt h b s) j).

Definition forward (m : t) (x : tensor3 (option R))
    : result (tensor3 (option R)) :=
  let? a := Linear_forward_o (projA m) x in
  let h := activate m a in
  Linear_forward_o (projB m) h.

End PositionWiseFeedforward.

(** ** [class TransformerDecoder]

    The layers are modules with a [forward] and a [set_cell_mode]; the
    decoder is modelled over any such layer.  [q.WordEmb] is not part of
    the source: the lookup of the positions [offset .. offset + len - 1]
    and its addition to the input are the argument [add_positions].  The
    embedding dropout is at rate 0. *)

Module TransformerDecoder.

Section Layers.

Variables Tens Ctx Mask CtxMask Layer : Type.

(** [x.size(1)] *)
Variable size1 : Tens -> nat.

(** [x + self.posemb(torch.arange(0, x.size(1)) + offset)] *)
Variable add_positions : nat -> Tens -> result Tens.

Variable layer_forward :
  Tens -> option Ctx -> option Mask -> option CtxMask -> M Layer Tens.
Variable layer_set_cell_mode : bool -> option Z -> bool -> M Layer unit.

Record t : Type := MkT
  { maxlen : Z;
    posemb : bool;          (* [self.posemb is not None] *)
    layers : list Layer;
    _lm_mode : bool;
    _cell_mode : bool;
    _posoffset : nat }.

Definition set_layers (l : list Layer) (s : t) : t :=
  MkT (maxlen s) (posemb s) l (_lm_mode s) (_cell_mode s) (_posoffset s).

Definition set_lm_mode (b : bool) (s : t) : t :=
  MkT (maxlen s) (posemb s) (layers s) b (_cell_mode s) (_posoffset s).

Definition set_cell_mode_attr (b : bool) (s : t) : t :=
  MkT (maxlen s) (posemb s) (layers s) (_lm_mode s) b (_posoffset s).

Definition set_posoffset (n : nat) (s : t) : t :=
  MkT (maxlen s) (posemb s) (layers s) (_lm_mode s) (_cell_mode s) n.

(** [__init__], given the layers it has built: there is a table of
    absolute positions unless [maxlen] is negative or relative positions
    are asked for. *)
Definition __init__ (maxlen : Z)
    (relpos : MultiHeadAttention.relpos_flag) (built : list Layer) : t :=
  MkT maxlen
      ((-1 <? maxlen)%Z
       && match relpos with
          | MultiHeadAttention.RelposFalse => true
          | _ => false
          end)
      built false false 0.

Definition epoch_reset : M t unit := modify (set_posoffset 0).

Definition rec_reset : M t unit :=
  lm <- gets _lm_mode ;;
  if negb lm then epoch_reset else ret tt.

(** [for layer in self.layers: ...]: a method of each layer in turn, on
    the layers of the object; the loop stops at the first raise, with the
    layers before it already changed. *)
Fixpoint each_layer (m : M Layer unit) (ls : list Layer)
    : result unit * list Layer :=
  match ls with
  | [] => (inr tt, [])
  | l :: rest =>
      match m l with
      | (inl e, l') => (inl e, l' :: rest)
      | (inr _, l') =>
          let (r, rest') := each_layer m rest in (r, l' :: rest')
      end
  end.

Definition set_cell_mode (val : bool) (horizon : option Z) (lm_mode : bool)
    : M t unit :=
  modify (set_cell_mode_attr val) ;;
  modify (set_lm_mode lm_mode) ;;
  fun s =>
    let (r, ls) :=
      each_layer (layer_set_cell_mode val horizon lm_mode) (layers s) in
    (r, set_layers ls s).

(** [for layer in self.layers: h = layer(h, ctx, mask=mask,
    ctxmask=ctxmask)] *)
Fixpoint through_layers (h : Tens) (ctx : option Ctx) (mask : option Mask)
    (ctxmask : option CtxMask) (ls : list Layer)
    : result Tens * list Layer :=
  match ls with
  | [] => (inr h, [])
  | l :: rest =>
      match layer_forward h ctx mask ctxmask l with
      | (inl e, l') => (inl e, l' :: rest)
      | (inr h', l') =>
          let (r, rest') := through_layers h' ctx mask ctxmask rest in
          (r, l' :: rest')
      end
  end.

Definition forward (x : Tens) (ctx : option Ctx) (mask : option Mask)
    (ctxmask : option CtxMask) : M t Tens :=
  pe <- gets posemb ;;
  emb <-
    (if pe : bool then
       ml <- gets maxlen ;;
       off <- gets _posoffset ;;
       assert (Z.of_nat (size1 x) <=? ml - Z.of_nat off)%Z ;;
       lift (add_positions off x)
     else ret x) ;;
  h <- (fun s =>
          let (r, ls) := through_layers emb ctx mask ctxmask (layers s) in
          (r, set_layers ls s)) ;;
  cm <- gets _cell_mode ;;
  (if cm : bool
   then off <- gets _posoffset ;; modify (set_posoffset (off + 1))
   else ret tt) ;;
  ret h.

(** The object after a list of forward calls, whatever each returned. *)
Fixpoint after_calls
    (calls : list (Tens * option Ctx * option Mask * option CtxMask))
    (s : t) : t :=
  match calls with
  | [] => s
  | (x, ctx, mask, ctxmask) :: rest =>
      after_calls rest (snd (forward x ctx mask ctxmask s))
  end.

(** How many of the calls return. *)
Fixpoint returned_calls
    (calls : list (Tens * option Ctx * option Mask * option CtxMask))
    (s : t) : nat :=
  match calls with
  | [] => 0
  | (x, ctx, mask, ctxmask) :: rest =>
      (match fst (forward x ctx mask ctxmask s) with
       | inr _ => 1
       | inl _ => 0
       end)
      + returned_calls rest (snd (forward x ctx mask ctxmask s))
  end.

End Layers.

Arguments MkT {Layer}.
Arguments maxlen {Layer}.
Arguments posemb {Layer}.
Arguments layers {Layer}.
Arguments _lm_mode {Layer}.
Arguments _cell_mode {Layer}.
Arguments _posoffset {Layer}.
Arguments set_layers {Layer}.
Arguments set_lm_mode {Layer}.
Arguments set_cell_mode_attr {Layer}.
Arguments set_posoffset {Layer}.
Arguments __init__ {Layer}.
Arguments epoch_reset {Layer}.
Arguments rec_reset {Layer}.
Arguments each_layer {Layer}.
Arguments set_cell_mode {Layer}.
Arguments through_layers {Tens Ctx Mask CtxMask Layer}.
Arguments forward {Tens Ctx Mask CtxMask Layer}.
Arguments after_calls {Tens Ctx Mask CtxMask Layer}.
Arguments returned_calls {Tens Ctx Mask CtxMask Layer}.

End TransformerDecoder.

(** ** [nn.LayerNorm] over the last axis *)

Record LayerNorm : Type := MkLayerNorm
  { normalized_shape : nat;
    ln_weight : nat -> R;
    ln_bias : nat -> R;
    ln_eps : R }.

(** [nn.LayerNorm(n)]: weight 1, bias 0, [eps = 1e-5]. *)
Definition LayerNorm_init (n : nat) : LayerNorm :=
  MkLayerNorm n (fun _ => 1%R) (fun _ => 0%R) (1 / 100000)%R.

(** One row: undefined throughout as soon as one entry is. *)
Definition normalize_row (ln : LayerNorm) (row : nat -> option R) (j : nat)
    : option R :=
  let n := normalized_shape ln in
  match osum_n n row with
  | None => None
  | Some total =>
      let x := fun i => match row i with Some r => r | None => 0%R end in
      let mean := (total / INR n)%R in
      let var := (sum_n n (fun i => Rsqr (x i - mean)) / INR n)%R in
      Some ((x j - mean) / sqrt (var + ln_eps ln) * ln_weight ln j
            + ln_bias ln j)%R
  end.

Definition LayerNorm_forward (ln : LayerNorm) (x : tensor3 (option R))
    : result (tensor3 (option R)) :=
  if t3_size2 x =? normalized_shape ln
  then inr (Tensor3 (t3_device x) (t3_size0 x) (t3_size1 x) (t3_size2 x)
                    (fun b s j => normalize_row ln (t3_elt x b s) j))
  else inl RuntimeError.

(** Entrywise operations on two 3-d tensors, with broadcasting. *)
Definition broadcast3 {A B C : Type} (f : A -> B -> C)
    (x : tensor3 A) (y : tensor3 B) : result (tensor3 C) :=
  match bdim (t3_size0 x) (t3_size0 y), bdim (t3_size1 x) (t3_size1 y),
        bdim (t3_size2 x) (t3_size2 y) with
  | Some n0, Some n1, Some n2 =>
      inr (Tensor3 (t3_device x) n0 n1 n2
             (fun a b c =>
                f (t3_elt x (bidx (t3_size0 x) a) (bidx (t3_size1 x) b)
                            (bidx (t3_size2 x) c))
                  (t3_elt y (bidx (t3_size0 y) a) (bidx (t3_size1 y) b)
                            (bidx (t3_size2 y) c))))
  | _, _, _ => inl RuntimeError
  end.

(** [x * mask.float().unsqueeze(-1)] *)
Definition times_mask (x : tensor3 R) (mask : tensor2 bool)
    : result (tensor3 R) :=
  broadcast3 Rmult x
    (Tensor3 (t3_device x) (t2_size0 mask) (t2_size1 mask) 1
             (fun b s _ => if t2_elt mask b s then 1%R else 0%R)).

(** ** [class TransformerEncoderBlock] *)

Module TransformerEncoderBlock.

Record t : Type := MkT
  { slf_attn : MultiHeadAttention.t;
    ln_slf : LayerNorm;
    mlp : PositionWiseFeedforward.t;
    ln_ff : LayerNorm }.

Definition set_slf_attn (a : MultiHeadAttention.t) (s : t) : t :=
  MkT a (ln_slf s) (mlp s) (ln_ff s).

(** The values drawn for the attention and for the two layers of the
    feed-forward part. *)
Record draws : Type := MkDraws
  { attn_w : MultiHeadAttention.draws;
    mlp_wA : nat -> nat -> R;
    mlp_wB : nat -> nat -> R }.

Definition __init__ (indim : nat) (kdim vdim numheads : option nat)
    (activation : nat -> (nat -> option R) -> nat -> option R)
    (scale _bidir : bool) (maxlen : Z)
    (relpos : MultiHeadAttention.relpos_flag) (w : draws) : result t :=
  let? attn :=
    MultiHeadAttention.__init__ (Some indim) kdim vdim _bidir numheads
      scale maxlen relpos (attn_w w) in
  let? ff :=
    PositionWiseFeedforward.__init__ indim (4 * indim) activation
      (mlp_wA w) (mlp_wB w) in
  inr (MkT attn (LayerNorm_init indim) ff (LayerNorm_init indim)).

(** A call of a method of [self.slf_attn]. *)
Definition on_slf_attn {A : Type} (m : M MultiHeadAttention.t A) : M t A :=
  fun s => let (r, a) := m (slf_attn s) in (r, set_slf_attn a s).

Definition forward (x : tensor3 R) (mask : option (tensor2 bool))
    : M t (tensor3 (option R)) :=
  x <- match mask with
       | Some m => lift (times_mask x m)
       | None => ret x
       end ;;
  a <- on_slf_attn (MultiHeadAttention.forward x None None mask) ;;
  ln1 <- gets ln_slf ;;
  xa <- lift (broadcast3 (fun r o => oadd (Some r) o) x a) ;;
  n <- lift (LayerNorm_forward ln1 xa) ;;
  ff <- gets mlp ;;
  m <- lift (PositionWiseFeedforward.forward ff n) ;;
  ln2 <- gets ln_ff ;;
  nm <- lift (broadcast3 oadd n m) ;;
  lift (LayerNorm_forward ln2 nm).

End TransformerEncoderBlock.

(** ** [class TransformerDecoderBlock]: construction and cell mode *)

Module TransformerDecoderBlock.

(** The block inherits the attributes of the encoder block. *)
Record t : Type := MkT
  { base : TransformerEncoderBlock.t;
    noctx : bool;
    ctx_attn : option MultiHeadAttention.t;
    ln_ctx : option LayerNorm }.

Definition set_base (b : TransformerEncoderBlock.t) (s : t) : t :=
  MkT b (noctx s) (ctx_attn s) (ln_ctx s).

(** The self-attention is unidirectional; the attention to the context is
    bidirectional, without relative positions and with the default
    [maxlen] of [MultiHeadAttention]. *)
Definition __init__ (indim : nat) (kdim vdim numheads : option nat)
    (activation : nat -> (nat -> option R) -> nat -> option R)
    (scale noctx : bool) (maxlen : Z)
    (relpos : MultiHeadAttention.relpos_flag)
    (w : TransformerEncoderBlock.draws)
    (ctx_w : MultiHeadAttention.draws) : result t :=
  let? b :=
    TransformerEncoderBlock.__init__ indim kdim vdim numheads activation
      scale false maxlen relpos w in
  if noctx then inr (MkT b true None None)
  else
    let? ctx :=
      MultiHeadAttention.__init__ (Some indim) kdim vdim true numheads
        scale 512 MultiHeadAttention.RelposFalse ctx_w in
    inr (MkT b false (Some ctx) (Some (LayerNorm_init indim))).

Definition set_cell_mode (val : bool) (horizon : option Z) (lm_mode : bool)
    : M t unit :=
  fun s =>
    let (r, b) :=
      TransformerEncoderBlock.on_slf_attn
        (MultiHeadAttention.set_cell_mode val horizon lm_mode) (base s) in
    (r, set_base b s).

End TransformerDecoderBlock.

(** * Properties *)

Import MultiHeadAttention.

(** Unfolding of the monad operations. *)
Ltac unmonad :=
  cbv beta iota zeta delta [bind ret raise gets modify lift assert rbind].

(** ** Sums, rows and indices *)



Lemma all_below_spec (n : nat) (p : nat -> bool) :
  all_below n p = true <-> forall i, i < n -> p i = true.
Proof.
  unfold all_below. rewrite forallb_forall. split.
  - intros H i Hi. apply H. apply in_seq. lia.
  - intros H i Hi. apply in_seq in Hi. apply H. lia.
Qed.

Lemma any_below_false (n : nat) (p : nat -> bool) :
  any_below n p = false <-> forall i, i < n -> p i = false.
Proof.
  unfold any_below. split.
  - intros H i Hi.
    destruct (p i) eqn:E; [| reflexivity].
    assert (existsb p (seq 0 n) = true) as C.
    { apply existsb_exists. exists i. split; [apply in_seq; lia | exact E]. }
    congruence.
  - intros H. destruct (existsb p (seq 0 n)) eqn:E; [| reflexivity].
    apply existsb_exists in E. destruct E as (i & Hi & Hp).
    apply in_seq in Hi. rewrite H in Hp by lia. discriminate.
Qed.




Lemma bidx_lt (n i : nat) : i < n -> bidx n i = i.
Proof.
  intros H. unfold bidx. destruct (Nat.eqb_spec n 1); lia.
Qed.





(** A broadcast size is one of the two sizes, and the other is 1 or equal. *)
Lemma bdim_inv (a b n : nat) :
  bdim a b = Some n -> (n = a /\ (b = a \/ b = 1)) \/ (n = b /\ a = 1).
Proof.
  unfold bdim.
  destruct (Nat.eqb_spec a b); [intros [= <-]; left; auto |].
  destruct (Nat.eqb_spec a 1); [intros [= <-]; right; auto |].
  destruct (Nat.eqb_spec b 1); [intros [= <-]; left; auto | discriminate].
Qed.


Lemma merge_index (n3 h d : nat) :
  d < n3 -> (h * n3 + d) / n3 = h /\ (h * n3 + d) mod n3 = d.
Proof.
  intros Hd. split; symmetry.
  - apply (Nat.div_unique _ _ _ d); [exact Hd | nia].
  - apply (Nat.mod_unique _ _ h); [exact Hd | nia].
Qed.


(** ** Running the tensor operations on matching sizes *)

Lemma well_formed_layers (p : params) :
  well_formed p = true ->
  in_features (q_proj p) = indim p
  /\ out_features (q_proj p) = numheads p * d_k p
  /\ in_features (k_proj p) = indim p
  /\ out_features (k_proj p) = numheads p * d_k p
  /\ in_features (v_proj p) = indim p
  /\ out_features (v_proj p) = numheads p * d_v p
  /\ in_features (vw_proj p) = numheads p * d_v p.
Proof.
  unfold well_formed. rewrite !andb_true_iff, !Nat.eqb_eq. tauto.
Qed.

Lemma well_formed_table (p : params) (e : Embedding) :
  well_formed p = true -> relpos_emb p = Some e ->
  embedding_dim e = indim p
  /\ Z.of_nat (num_embeddings e) = (2 * maxlen p)%Z
  /\ (1 <= maxlen p)%Z.
Proof.
  unfold well_formed. intros H E. rewrite E in H.
  rewrite !andb_true_iff, !Nat.eqb_eq in H.
  rewrite Z.eqb_eq, Z.leb_le in H. tauto.
Qed.

Lemma project_ok (l : Linear) (x : tensor3 R) (heads d : nat) :
  t3_size2 x = in_features l -> out_features l = heads * d ->
  project l x (t3_size0 x) heads d = inr (heads_of l x heads d).
Proof.
  intros Hi Ho. unfold project, Linear_forward.
  rewrite Hi, Nat.eqb_refl. unmonad.
  unfold view4, numel3. cbn [Linear_apply t3_size0 t3_size1 t3_size2].
  rewrite Ho.
  replace (t3_size0 x * t3_size1 x * (heads * d)
           =? t3_size0 x * t3_size1 x * heads * d) with true
    by (symmetry; apply Nat.eqb_eq; nia).
  reflexivity.
Qed.

Lemma Embedding_forward_inv (e : Embedding) (dv : device) (n0 n1 : nat)
    (idx : nat -> nat -> Z) (vec : tensor3 R) :
  Embedding_forward e dv n0 n1 idx = inr vec -> vec = lookup e dv n0 n1 idx.
Proof.
  unfold Embedding_forward.
  destruct (all_below n0 _); [intros [= <-]; reflexivity | discriminate].
Qed.



(** ** The relative-position cache *)

Lemma same_but_cache_refl (c : t) : same_but_cache c c.
Proof. unfold same_but_cache. tauto. Qed.

Lemma same_but_cache_trans (c1 c2 c3 : t) :
  same_but_cache c1 c2 -> same_but_cache c2 c3 -> same_but_cache c1 c3.
Proof.
  unfold same_but_cache. intros (A1 & A2 & A3 & A4 & A5 & A6)
    (B1 & B2 & B3 & B4 & B5 & B6).
  repeat split; congruence.
Qed.

(** A hit leaves the object as it is. *)
Lemma refresh_hit (c : t) (emb : Embedding) (x vec : tensor3 R)
    (q_len k_len : nat) :
  _cache_relpos_sizes c = Some (q_len, k_len) ->
  _cache_relpos_vec c = Some vec ->
  t3_device vec = t3_device x ->
  refresh_relpos_cache emb x q_len k_len c = (inr tt, c).
Proof.
  intros Hs Hv Hd. unfold refresh_relpos_cache. unmonad.
  rewrite Hs, Hv, !Nat.eqb_refl. cbn.
  rewrite Hd, Nat.eqb_refl. reflexivity.
Qed.


(** A miss looks the rows up and replaces the entry. *)
Lemma refresh_miss (c : t) (emb : Embedding) (x : tensor3 R)
    (q_len k_len : nat) :
  stale_cache c x q_len k_len ->
  refresh_relpos_cache emb x q_len k_len c
  = fill_relpos_cache emb x q_len k_len c.
Proof.
  intros Hst. unfold refresh_relpos_cache. unmonad.
  destruct (_cache_relpos_sizes c) as [[ql kl] |] eqn:Es; [| reflexivity].
  destruct ((ql =? q_len) && (kl =? k_len)) eqn:Eq; [| reflexivity].
  apply andb_true_iff in Eq. destruct Eq as [E1 E2].
  apply Nat.eqb_eq in E1, E2. subst ql kl.
  destruct Hst as [Hne | (vec & Hv & Hd)]; [congruence |].
  rewrite Hv. apply Nat.eqb_neq in Hd. cbn. rewrite Hd. reflexivity.
Qed.




(** ** Weights and output on matching sizes *)





(** ** One incremental step *)

Lemma push_sizes (c : t) (batsize m : nat) (k v : tensor4 R) :
  history_shaped c batsize m ->
  t4_size0 k = batsize -> t4_size1 k = 1 ->
  t4_size2 k = numheads (hp c) -> t4_size3 k = d_k (hp c) ->
  t4_size0 v = batsize -> t4_size1 v = 1 ->
  t4_size2 v = numheads (hp c) -> t4_size3 v = d_v (hp c) ->
  let K := push (_prev_k c) k in
  let V := push (_prev_v c) v in
  t4_size0 K = batsize /\ t4_size1 K = m + 1
  /\ t4_size2 K = numheads (hp c) /\ t4_size3 K = d_k (hp c)
  /\ t4_size0 V = batsize /\ t4_size1 V = m + 1
  /\ t4_size2 V = numheads (hp c) /\ t4_size3 V = d_v (hp c).
Proof.
  intros Hh K0 K1 K2 K3 V0 V1 V2 V3. unfold history_shaped in Hh.
  destruct (_prev_k c) as [pk |], (_prev_v c) as [pv |];
    try contradiction; cbn.
  - destruct Hh as (A0 & A1 & A2 & A3 & B0 & B1 & B2 & B3).
    repeat split; lia.
  - subst m. repeat split; assumption.
Qed.

(** [update_prev] appends, then compares the new length with the horizon:
    on overflow the appended step stays in the history. *)
Lemma update_prev_step (c : t) (batsize m : nat) (h : Z) (k v : tensor4 R) :
  _horizon c = Some h -> history_shaped c batsize m ->
  t4_size0 k = batsize -> t4_size1 k = 1 ->
  t4_size2 k = numheads (hp c) -> t4_size3 k = d_k (hp c) ->
  t4_size0 v = batsize -> t4_size1 v = 1 ->
  t4_size2 v = numheads (hp c) -> t4_size3 v = d_v (hp c) ->
  update_prev k v c
  = (if (Z.of_nat (m + 1) >? h)%Z
     then inl (HorizonExceeded h (m + 1))
     else inr (push (_prev_k c) k, push (_prev_v c) v),
     set_prev_v (Some (push (_prev_v c) v))
       (set_prev_k (Some (push (_prev_k c) k)) c)).
Proof.
  intros Hh Hs K0 K1 K2 K3 V0 V1 V2 V3.
  destruct (push_sizes c batsize m k v Hs K0 K1 K2 K3 V0 V1 V2 V3)
    as (P0 & P1 & P2 & P3 & Q0 & Q1 & Q2 & Q3).
  unfold history_shaped in Hs. unfold update_prev. unmonad.
  rewrite K1, V1. cbn.
  destruct (_prev_k c) as [pk |] eqn:Ek, (_prev_v c) as [pv |] eqn:Ev;
    try contradiction; cbn in *.
  - destruct Hs as (A0 & A1 & A2 & A3 & B0 & B1 & B2 & B3).
    unfold cat1.
    rewrite A0, A2, A3, K0, K2, K3, !Nat.eqb_refl. cbn.
    rewrite ?Ev. rewrite B0, B2, B3, V0, V2, V3, !Nat.eqb_refl. cbn.
    rewrite Hh. rewrite A1, K1.
    destruct (Z.of_nat (m + 1) >? h)%Z; [reflexivity |].
    unfold same_leading_sizes. cbn.
    rewrite A0, A1, A2, B0, B1, B2, K1, V1, !Nat.eqb_refl. reflexivity.
  - rewrite Hh, K1. subst m. cbn.
    destruct (1 >? h)%Z; [reflexivity |].
    unfold same_leading_sizes.
    rewrite K0, K1, K2, V0, V1, V2, !Nat.eqb_refl. reflexivity.
Qed.

(** In cell mode [attend] projects the step, appends it and, unless the
    horizon is exceeded, goes on with the appended history. *)
Lemma attend_cell_prefix (c : t) (x : tensor3 R) (batsize m : nat) (h : Z)
    (A : Type) (rest : tensor4 (option R) * tensor4 R -> M t A) :
  well_formed (hp c) = true ->
  _cell_mode c = true -> _horizon c = Some h ->
  history_shaped c batsize m -> step_input (hp c) batsize x ->
  let p := hp c in
  let q := heads_of (q_proj p) x (numheads p) (d_k p) in
  let K := push (_prev_k c) (heads_of (k_proj p) x (numheads p) (d_k p)) in
  let V := push (_prev_v c) (heads_of (v_proj p) x (numheads p) (d_v p)) in
  let c1 := set_prev_v (Some V) (set_prev_k (Some K) c) in
  bind (attend x None None None) rest c
  = (if (Z.of_nat (m + 1) >? h)%Z
     then (inl (HorizonExceeded h (m + 1)), c1)
     else bind (rel <- relpos_vectors x x (t3_size0 x) 1 (m + 1) ;;
                w <- lift (attention_weights p q K rel None) ;;
                ret (w, V)) rest c1).
Proof.
  intros Hwf Hcm Hh Hs (X0 & X1 & X2). cbv zeta.
  destruct (well_formed_layers _ Hwf)
    as (Qi & Qo & Ki & Ko & Vi & Vo & VWi).
  set (p := hp c) in *.
  set (q := heads_of (q_proj p) x (numheads p) (d_k p)).
  set (k := heads_of (k_proj p) x (numheads p) (d_k p)) in *.
  set (v := heads_of (v_proj p) x (numheads p) (d_v p)) in *.
  assert (Hpush := push_sizes c batsize m k v Hs X0 X1 eq_refl eq_refl
                     X0 X1 eq_refl eq_refl).
  set (K := push (_prev_k c) k) in *.
  set (V := push (_prev_v c) v) in *.
  destruct Hpush as (P0 & P1 & P2 & P3 & Q0 & Q1 & Q2 & Q3).
  unfold attend.
  unfold bind at 1. unfold bind at 1. unfold gets at 1. rewrite Hcm.
  unfold bind at 1. unfold ret at 1.
  unfold bind at 1. unfold gets at 1. fold p.
  unfold bind at 1. unfold lift at 1.
  rewrite (project_ok (q_proj p) x (numheads p) (d_k p)) by congruence.
  unfold bind at 1. unfold lift at 1.
  rewrite (project_ok (k_proj p) x (numheads p) (d_k p)) by congruence.
  unfold bind at 1. unfold lift at 1.
  rewrite (project_ok (v_proj p) x (numheads p) (d_v p)) by congruence.
  fold q k v.
  unfold bind at 1.
  rewrite (update_prev_step c batsize m h k v Hh Hs X0 X1 eq_refl eq_refl
             X0 X1 eq_refl eq_refl).
  fold K V.
  destruct (Z.of_nat (m + 1) >? h)%Z; [reflexivity |].
  cbn [fst snd].
  assert (Hq1 : t4_size1 q = 1) by exact X1.
  rewrite Hq1, P1. unfold bind. reflexivity.
Qed.

(** The entries of the history stay where they are when a step is pushed. *)
Lemma push_keeps (h : option (tensor4 R)) (k : tensor4 R) (b s hd d : nat) :
  s < history_length h ->
  exists old, h = Some old
              /\ t4_elt (push h k) b s hd d = t4_elt old b s hd d.
Proof.
  destruct h as [old |]; unfold history_length; intros Hs; [| lia].
  exists old. split; [reflexivity |].
  unfold push, append1. cbn [t4_elt].
  apply Nat.ltb_lt in Hs. rewrite Hs. reflexivity.
Qed.

Lemma push_last (h : option (tensor4 R)) (k : tensor4 R) (b hd d : nat) :
  t4_elt (push h k) b (history_length h) hd d = t4_elt k b 0 hd d.
Proof.
  destruct h as [old |]; unfold history_length, push, append1;
    cbn [t4_elt]; [| reflexivity].
  rewrite Nat.ltb_irrefl, Nat.sub_diag. reflexivity.
Qed.




(** ** Enabling cell mode *)

Lemma set_cell_mode_on (c : t) (h : Z) (lm_mode : bool) :
  bidir (hp c) = false ->
  set_cell_mode true (Some h) lm_mode c
  = (inr tt,
     set_lm_mode lm_mode (set_horizon (Some h) (set_cell_mode_attr true c))).
Proof.
  intros Hb. unfold set_cell_mode; unmonad. rewrite Hb. reflexivity.
Qed.

(** C8: [set_cell_mode(True, ...)] fails when no horizon is given or the
    module is bidirectional, and leaves the object as it was; on a
    unidirectional module with a horizon it succeeds and records the three
    arguments. *)
Theorem set_cell_mode_enabling (c : t) (horizon : option Z) (lm_mode : bool) :
  (horizon = None \/ bidir (hp c) = true ->
   set_cell_mode true horizon lm_mode c = (inl AssertionError, c)) /\
  (forall h : Z,
      horizon = Some h -> bidir (hp c) = false ->
      set_cell_mode true horizon lm_mode c
      = (inr tt,
         set_lm_mode lm_mode
           (set_horizon (Some h) (set_cell_mode_attr true c)))).
Proof.
  split.
  - intros [-> | Hb].
    + reflexivity.
    + unfold set_cell_mode; unmonad.
      destruct horizon; rewrite ?Hb; reflexivity.
  - intros h -> Hb. apply set_cell_mode_on. exact Hb.
Qed.

Lemma set_cell_mode_enabling_witness :
  set_cell_mode true None false (small_core RelposFalse)
  = (inl AssertionError, small_core RelposFalse)
  /\ set_cell_mode true (Some 3%Z) false (small_core RelposFalse)
     = (inr tt,
        set_lm_mode false
          (set_horizon (Some 3%Z)
             (set_cell_mode_attr true (small_core RelposFalse)))).
Proof.
  split.
  - apply (proj1 (set_cell_mode_enabling (small_core RelposFalse) None false)).
    left. reflexivity.
  - apply (proj2 (set_cell_mode_enabling (small_core RelposFalse)
                    (Some 3%Z) false) 3%Z); reflexivity.
Defined.

(** ** A mask in cell mode *)

(** C7: in cell mode a forward call with a key mask raises before anything
    is projected or appended: the object, and with it the key and value
    history, is unchanged. *)
Theorem forward_mask_in_cell_mode
    (c : t) (x : tensor3 R) (k v : option (tensor3 R)) (mask : tensor2 bool) :
  _cell_mode c = true ->
  exists e : exn, forward x k v (Some mask) c = (inl e, c).
Proof.
  intros Hc. exists TypeError.
  unfold forward, attend; unmonad. rewrite Hc. reflexivity.
Qed.

Lemma forward_mask_in_cell_mode_witness :
  exists e : exn,
    forward (zeros3 1 1 2) None None
            (Some (Tensor2 1 1 (fun _ _ => true)))
            (set_cell_mode_attr true (small_core RelposFalse))
    = (inl e, set_cell_mode_attr true (small_core RelposFalse)).
Proof.
  apply forward_mask_in_cell_mode. reflexivity.
Defined.

(** ** Construction *)





(** ** The sequence-to-sequence driver *)

Section TS2S_context.

Variables X XMask Y YMask Ctx Out : Type.
Variables Enc Dec : Type.
Variable encoder_forward : X -> option XMask -> M Enc Ctx.
Variable decoder_forward :
  Y -> Ctx -> option YMask -> option XMask -> M Dec Out.

Let driver : Type := TS2S.t X XMask Ctx Enc Dec.
Let ts2s_forward := TS2S.forward encoder_forward decoder_forward.
Let ts2s_after := TS2S.after_calls encoder_forward decoder_forward.





End TS2S_context.

(** ** The horizon *)





(** C10: a step that finds the history full raises the horizon exception
    after the append: the object then holds [h + 1] keys and [h + 1] values,
    the [h] old steps unchanged and in place, followed by the new one. *)
Theorem overflow_keeps_appended_step
    (c : t) (h batsize : nat) (x : tensor3 R) :
  well_formed (hp c) = true ->
  _cell_mode c = true -> _horizon c = Some (Z.of_nat h) ->
  history_shaped c batsize h -> step_input (hp c) batsize x ->
  exists (c' : t) (K V : tensor4 R),
    forward x None None None c
    = (inl (HorizonExceeded (Z.of_nat h) (h + 1)), c')
    /\ _prev_k c' = Some K /\ _prev_v c' = Some V
    /\ t4_size1 K = h + 1 /\ t4_size1 V = h + 1
    /\ (forall b s hd d : nat,
          s < h ->
          (exists old, _prev_k c = Some old
                       /\ t4_elt K b s hd d = t4_elt old b s hd d)
          /\ (exists old, _prev_v c = Some old
                          /\ t4_elt V b s hd d = t4_elt old b s hd d))
    /\ (forall b hd d : nat,
          t4_elt K b h hd d
          = t4_elt (heads_of (k_proj (hp c)) x (numheads (hp c))
                             (d_k (hp c))) b 0 hd d
          /\ t4_elt V b h hd d
             = t4_elt (heads_of (v_proj (hp c)) x (numheads (hp c))
                                (d_v (hp c))) b 0 hd d).
Proof.
  intros Hwf Hcm Hh Hshape Hx.
  unfold forward.
  rewrite (attend_cell_prefix c x batsize h (Z.of_nat h) _ _
             Hwf Hcm Hh Hshape Hx).
  replace (Z.of_nat (h + 1) >? Z.of_nat h)%Z with true
    by (symmetry; rewrite Z.gtb_ltb; apply Z.ltb_lt; lia).
  destruct Hx as (X0 & X1 & X2).
  pose proof (push_sizes c batsize h
                (heads_of (k_proj (hp c)) x (numheads (hp c)) (d_k (hp c)))
                (heads_of (v_proj (hp c)) x (numheads (hp c)) (d_v (hp c)))
                Hshape X0 X1 eq_refl eq_refl X0 X1 eq_refl eq_refl)
    as (_ & P1 & _ & _ & _ & Q1 & _).
  assert (Hkl : history_length (_prev_k c) = h
                /\ history_length (_prev_v c) = h).
  { unfold history_shaped in Hshape.
    destruct (_prev_k c), (_prev_v c); cbn; try contradiction; lia. }
  destruct Hkl as [Hkl Hvl].
  eexists _, _, _. split; [reflexivity |].
  cbn [_prev_k _prev_v set_prev_k set_prev_v].
  split; [reflexivity |]. split; [reflexivity |].
  split; [exact P1 |]. split; [exact Q1 |].
  split.
  - intros b s hd d Hs. split; apply push_keeps; lia.
  - intros b hd d. split.
    + rewrite <- Hkl at 1. apply push_last.
    + rewrite <- Hvl at 1. apply push_last.
Qed.

Lemma overflow_keeps_appended_step_witness :
  exists (c' : t) (K V : tensor4 R),
    forward (zeros3 1 1 2) None None None (cell_core RelposFalse 0)
    = (inl (HorizonExceeded 0 (0 + 1)), c')
    /\ _prev_k c' = Some K /\ _prev_v c' = Some V
    /\ t4_size1 K = 0 + 1 /\ t4_size1 V = 0 + 1.
Proof.
  destruct (overflow_keeps_appended_step (cell_core RelposFalse 0) 0 1
              (zeros3 1 1 2))
    as (c' & K & V & H1 & H2 & H3 & H4 & H5 & _).
  - reflexivity.
  - reflexivity.
  - reflexivity.
  - reflexivity.
  - repeat constructor.
  - exists c', K, V. repeat split; assumption.
Defined.

(** ** Entries of the weights and of the output *)




(** ** A call outside cell mode *)


(** ** Incremental decoding against the full pass *)













(** ** Reading a returned call backwards *)

Lemma bind_inr {S A B : Type} (m : M S A) (f : A -> M S B)
    (s s' : S) (b : B) :
  bind m f s = (inr b, s') ->
  exists (a : A) (s1 : S), m s = (inr a, s1) /\ f a s1 = (inr b, s').
Proof.
  unfold bind. destruct (m s) as [[e | a] s1]; [discriminate |].
  intros H. exists a, s1. split; [reflexivity | exact H].
Qed.

Lemma lift_inr {S A : Type} (r : result A) (s s' : S) (a : A) :
  lift r s = (inr a, s') -> r = inr a /\ s' = s.
Proof. unfold lift. intros [= -> ->]. auto. Qed.

Lemma gets_inr {S A : Type} (f : S -> A) (s s' : S) (a : A) :
  gets f s = (inr a, s') -> a = f s /\ s' = s.
Proof. unfold gets. intros [= <- <-]. auto. Qed.

Lemma ret_inr {S A : Type} (a0 a : A) (s s' : S) :
  ret a0 s = (inr a, s') -> a = a0 /\ s' = s.
Proof. unfold ret. intros [= <- <-]. auto. Qed.

Lemma modify_inr {S : Type} (f : S -> S) (s s' : S) (u : unit) :
  modify f s = (inr u, s') -> s' = f s.
Proof. unfold modify. intros [= _ E]. symmetry. exact E. Qed.

Lemma assert_inr {S : Type} (b : bool) (s s' : S) (u : unit) :
  assert b s = (inr u, s') -> b = true /\ s' = s.
Proof.
  unfold assert, ret, raise. destruct b; [| discriminate].
  intros [= <-]. auto.
Qed.

Lemma rbind_inr {A B : Type} (r : result A) (f : A -> result B) (b : B) :
  rbind r f = inr b -> exists a : A, r = inr a /\ f a = inr b.
Proof.
  destruct r as [e | a]; cbn; [discriminate |].
  intros H. exists a. auto.
Qed.

(** One step of reading a hypothesis [m s = (inr b, s')] backwards. *)
Ltac minv_at H :=
  lazymatch type of H with
  | bind _ _ _ = (inr _, _) =>
      let a := fresh "a" in
      let s := fresh "s" in
      let H1 := fresh "H" in
      apply bind_inr in H; destruct H as (a & s & H1 & H)
  | lift _ _ = (inr _, _) =>
      let E := fresh "E" in apply lift_inr in H; destruct H as (H & E);
      try subst
  | gets _ _ = (inr _, _) =>
      let E := fresh "E" in apply gets_inr in H; destruct H as (H & E);
      try subst
  | ret _ _ = (inr _, _) =>
      let E := fresh "E" in apply ret_inr in H; destruct H as (H & E);
      try subst
  | modify _ _ = (inr _, _) => apply modify_inr in H; try subst
  | assert _ _ = (inr _, _) =>
      let E := fresh "E" in apply assert_inr in H; destruct H as (H & E);
      try subst
  | raise _ _ = (inr _, _) => discriminate H
  end.

Tactic Notation "minv" hyp(H) := minv_at H.

Ltac minv_all :=
  repeat match goal with
         | H : bind _ _ _ = (inr _, _) |- _ => minv_at H
         | H : lift _ _ = (inr _, _) |- _ => minv_at H
         | H : gets _ _ = (inr _, _) |- _ => minv_at H
         | H : ret _ _ = (inr _, _) |- _ => minv_at H
         | H : modify _ _ = (inr _, _) |- _ => minv_at H
         | H : assert _ _ = (inr _, _) |- _ => minv_at H
         | H : raise _ _ = (inr _, _) |- _ => discriminate H
         end.

Lemma view4_sizes {A : Type} (x : tensor3 A) (n0 n1 n2 n3 : nat)
    (y : tensor4 A) :
  view4 x n0 n1 n2 n3 = inr y ->
  t4_size0 y = n0 /\ t4_size1 y = n1 /\ t4_size2 y = n2 /\ t4_size3 y = n3.
Proof.
  unfold view4. destruct (numel3 x =? _); [| discriminate].
  intros [= <-]. cbn. auto.
Qed.

Lemma project_sizes (l : Linear) (x : tensor3 R) (batsize heads d : nat)
    (y : tensor4 R) :
  project l x batsize heads d = inr y ->
  t4_size0 y = batsize /\ t4_size1 y = t3_size1 x
  /\ t4_size2 y = heads /\ t4_size3 y = d.
Proof.
  unfold project. intros H. apply rbind_inr in H.
  destruct H as (z & _ & H). apply view4_sizes in H. exact H.
Qed.

Lemma broadcast4_inv {A B C : Type} (f : A -> B -> C)
    (x : tensor4 A) (y : tensor4 B) (z : tensor4 C) :
  broadcast4 f x y = inr z ->
  exists n0 n1 n2 n3 : nat,
    bdim (t4_size0 x) (t4_size0 y) = Some n0
    /\ bdim (t4_size1 x) (t4_size1 y) = Some n1
    /\ bdim (t4_size2 x) (t4_size2 y) = Some n2
    /\ bdim (t4_size3 x) (t4_size3 y) = Some n3
    /\ z = zip4 f n0 n1 n2 n3 x y.
Proof.
  unfold broadcast4.
  destruct (bdim (t4_size0 x) (t4_size0 y)) as [n0 |]; [| discriminate].
  destruct (bdim (t4_size1 x) (t4_size1 y)) as [n1 |]; [| discriminate].
  destruct (bdim (t4_size2 x) (t4_size2 y)) as [n2 |]; [| discriminate].
  destruct (bdim (t4_size3 x) (t4_size3 y)) as [n3 |]; [| discriminate].
  intros [= <-]. exists n0, n1, n2, n3. auto.
Qed.

Lemma bdim_absorbs (a b n : nat) :
  bdim a b = Some n -> b = a \/ b = 1 -> n = a.
Proof.
  intros H Hb. apply bdim_inv in H.
  destruct H as [(-> & _) | (-> & ->)]; [reflexivity |].
  destruct Hb; congruence.
Qed.

(** ** What every call preserves *)

Lemma same_settings_refl (c : t) : same_settings c c.
Proof. unfold same_settings. tauto. Qed.

Lemma same_settings_trans (c1 c2 c3 : t) :
  same_settings c1 c2 -> same_settings c2 c3 -> same_settings c1 c3.
Proof.
  unfold same_settings.
  intros (A1 & A2 & A3 & A4 & A5) (B1 & B2 & B3 & B4 & B5).
  repeat split; try congruence. auto.
Qed.

Lemma settings_bind {A B : Type} (m : M t A) (f : A -> M t B) (c : t) :
  same_settings c (snd (m c)) ->
  (forall a : A, keeps_settings (f a)) ->
  same_settings c (snd (bind m f c)).
Proof.
  intros Hm Hf. unfold bind.
  destruct (m c) as [[e | a] c1]; cbn [snd] in *; [exact Hm |].
  apply (same_settings_trans c c1); [exact Hm | apply Hf].
Qed.

Lemma keeps_bind {A B : Type} (m : M t A) (f : A -> M t B) :
  keeps_settings m -> (forall a : A, keeps_settings (f a)) ->
  keeps_settings (bind m f).
Proof. intros Hm Hf c. apply settings_bind; [apply Hm | exact Hf]. Qed.

Lemma keeps_ret {A : Type} (a : A) : keeps_settings (ret a).
Proof. intros c. apply same_settings_refl. Qed.

Lemma keeps_raise {A : Type} (e : exn) : keeps_settings (@raise t A e).
Proof. intros c. apply same_settings_refl. Qed.

Lemma keeps_gets {A : Type} (f : t -> A) : keeps_settings (gets f).
Proof. intros c. apply same_settings_refl. Qed.

Lemma keeps_lift {A : Type} (r : result A) : keeps_settings (lift r).
Proof. intros c. apply same_settings_refl. Qed.

Lemma keeps_assert (b : bool) : keeps_settings (assert b).
Proof. intros c. destruct b; apply same_settings_refl. Qed.

Lemma keeps_set_prev_k (x : option (tensor4 R)) :
  keeps_settings (modify (set_prev_k x)).
Proof. intros c. unfold same_settings, cache_coherent. cbn. tauto. Qed.

Lemma keeps_set_prev_v (x : option (tensor4 R)) :
  keeps_settings (modify (set_prev_v x)).
Proof. intros c. unfold same_settings, cache_coherent. cbn. tauto. Qed.

Lemma keeps_count_proj : keeps_settings (modify count_relpos_proj_call).
Proof. intros c. unfold same_settings, cache_coherent. cbn. tauto. Qed.

(** Decomposition of a goal [keeps_settings m] along the structure of [m]. *)
Ltac keeps_with known :=
  repeat first
    [ known
    | apply keeps_ret | apply keeps_raise | apply keeps_gets
    | apply keeps_lift | apply keeps_assert
    | apply keeps_set_prev_k | apply keeps_set_prev_v
    | apply keeps_count_proj
    | apply keeps_bind; [| intros ?]
    | match goal with
      | |- keeps_settings (if ?b then _ else _) => destruct b
      | |- keeps_settings (match ?x with _ => _ end) => destruct x
      end ].

Ltac keeps := keeps_with fail.

Lemma keeps_update_prev (k v : tensor4 R) : keeps_settings (update_prev k v).
Proof. unfold update_prev. keeps. Qed.

Lemma fill_relpos_cache_settings (emb : Embedding) (x : tensor3 R)
    (q_len k_len : nat) (c : t) :
  relpos_emb (hp c) = Some emb ->
  same_settings c (snd (fill_relpos_cache emb x q_len k_len c)).
Proof.
  intros He. unfold fill_relpos_cache. unmonad.
  destruct (Nat.leb_spec q_len k_len) as [Hle | Hlt].
  2:{ cbn. apply same_settings_refl. }
  destruct (Embedding_forward emb (t3_device x) q_len k_len
              (relpos_index (maxlen (hp c)) q_len k_len)) as [e | vec] eqn:Ev.
  - unfold same_settings, cache_coherent. cbn. tauto.
  - unfold same_settings, cache_coherent. cbn. rewrite He.
    repeat split; try reflexivity.
    + exact Hle.
    + apply Embedding_forward_inv in Ev as Ev'. subst vec. exact Ev.
Qed.

Lemma refresh_relpos_cache_settings (emb : Embedding) (x : tensor3 R)
    (q_len k_len : nat) (c : t) :
  relpos_emb (hp c) = Some emb ->
  same_settings c (snd (refresh_relpos_cache emb x q_len k_len c)).
Proof.
  intros He.
  pose proof (fill_relpos_cache_settings emb x q_len k_len c He) as Hfill.
  unfold refresh_relpos_cache. unmonad.
  destruct (_cache_relpos_sizes c) as [[ql kl] |]; [| exact Hfill].
  destruct ((ql =? q_len) && (kl =? k_len)); [| exact Hfill].
  destruct (_cache_relpos_vec c) as [vec |]; [| apply same_settings_refl].
  destruct (negb (t3_device vec =? t3_device x));
    [exact Hfill | apply same_settings_refl].
Qed.

Lemma keeps_relpos_projections (vec _k : tensor3 R)
    (batsize q_len k_len : nat) :
  keeps_settings (relpos_projections vec _k batsize q_len k_len).
Proof. unfold relpos_projections. keeps. Qed.

Lemma keeps_relpos_vectors (x _k : tensor3 R) (batsize q_len k_len : nat) :
  keeps_settings (relpos_vectors x _k batsize q_len k_len).
Proof.
  intros c. unfold relpos_vectors. unfold bind at 1. unfold gets at 1.
  destruct (relpos_emb (hp c)) as [emb |] eqn:He;
    [| apply same_settings_refl].
  assert (Hon : same_settings c
                  (snd (relpos_branch emb x _k batsize q_len k_len c))).
  { unfold relpos_branch. apply settings_bind.
    - apply refresh_relpos_cache_settings. exact He.
    - intros _. keeps_with ltac:(apply keeps_relpos_projections). }
  destruct (relpos (hp c)); [apply same_settings_refl | exact Hon | exact Hon].
Qed.

Lemma keeps_attend (x : tensor3 R) (k v : option (tensor3 R))
    (mask : option (tensor2 bool)) :
  keeps_settings (attend x k v mask).
Proof.
  unfold attend.
  keeps_with ltac:(first [ apply keeps_update_prev
                         | apply keeps_relpos_vectors ]).
Qed.

Lemma keeps_forward (x : tensor3 R) (k v : option (tensor3 R))
    (mask : option (tensor2 bool)) :
  keeps_settings (forward x k v mask).
Proof. unfold forward. keeps_with ltac:(apply keeps_attend). Qed.

(** ** Sizes of the tensors of a returned call *)

Lemma relpos_projections_shaped (vec _k : tensor3 R)
    (batsize q_len k_len : nat) (c c' : t) (rel : relpos_tensors) :
  relpos_projections vec _k batsize q_len k_len c = (inr rel, c') ->
  _cell_mode c = true \/ t3_size1 _k = k_len ->
  rel_shaped q_len k_len rel.
Proof.
  unfold relpos_projections. intros H Hk. minv_all.
  match goal with
  | Hv : view4 _ _ _ _ _ = inr _ |- _ =>
      apply view4_sizes in Hv; destruct Hv as (S0 & S1 & _)
  end.
  destruct (relpos_k_proj (hp c)) as [rk |].
  - minv_all. cbn [_cell_mode count_relpos_proj_call] in H.
    destruct (_cell_mode c) eqn:Ecm; [discriminate H |].
    destruct Hk as [Hk | Hk]; [discriminate |].
    minv_all.
    match goal with
    | Hp : project _ _ _ _ _ = inr _ |- _ =>
        apply project_sizes in Hp; destruct Hp as (_ & K1 & _)
    end.
    match goal with
    | Hr : rbind _ _ = inr _ |- _ =>
        apply rbind_inr in Hr; destruct Hr as (y & _ & Hr);
        apply view4_sizes in Hr; destruct Hr as (V0 & V1 & _)
    end.
    unfold rel_shaped. repeat split; congruence.
  - minv_all. unfold rel_shaped. auto.
Qed.

Lemma relpos_vectors_shaped (x _k : tensor3 R) (batsize q_len k_len : nat)
    (c c' : t) (rel : relpos_tensors) :
  relpos_vectors x _k batsize q_len k_len c = (inr rel, c') ->
  _cell_mode c = true \/ t3_size1 _k = k_len ->
  rel_shaped q_len k_len rel.
Proof.
  unfold relpos_vectors. intros H Hk. minv_all.
  destruct (relpos_emb (hp c)) as [emb |] eqn:He;
    [| minv_all; exact I].
  assert (Hon : relpos_branch emb x _k batsize q_len k_len c = (inr rel, c')
                -> rel_shaped q_len k_len rel).
  { clear H. unfold relpos_branch. intros H.
    apply bind_inr in H. destruct H as (u & s & Hr & H).
    pose proof (refresh_relpos_cache_settings emb x q_len k_len c He) as Hs.
    rewrite Hr in Hs. cbn [snd] in Hs. destruct Hs as (_ & Hcm & _).
    minv_all. destruct (_cache_relpos_vec s) as [vec |]; [| discriminate H].
    apply (relpos_projections_shaped vec _k batsize q_len k_len s c' rel H).
    rewrite Hcm. exact Hk. }
  destruct (relpos (hp c)); [minv_all; exact I | auto | auto].
Qed.

(** A returned [attend] went through [attention_weights] on tensors of
    matching sizes. *)
Lemma attend_inv (c c' : t) (x : tensor3 R) (k v : option (tensor3 R))
    (mask : option (tensor2 bool)) (w : tensor4 (option R))
    (vv : tensor4 R) :
  attend x k v mask c = (inr (w, vv), c') ->
  exists (q kf : tensor4 R) (rel : relpos_tensors),
    t4_size1 q = t3_size1 x
    /\ (_cell_mode c = false ->
        t4_size1 kf = t3_size1 (match k with None => x | Some k => k end))
    /\ rel_shaped (t4_size1 q) (t4_size1 kf) rel
    /\ attention_weights (hp c) q kf rel mask = inr w.
Proof.
  unfold attend. intros H. minv_all.
  injection H as -> ->.
  match goal with
  | Hm : (if _cell_mode c then _ else _) c = (inr _, ?s) |- _ =>
      assert (Es : s = c)
        by (destruct (_cell_mode c), mask; minv_all; reflexivity);
      subst s; clear Hm
  end.
  match goal with
  | Hq : project (q_proj _) _ _ _ _ = inr ?q,
    Hk : project (k_proj _) _ _ _ _ = inr ?kk,
    Hu : (if _cell_mode c then _ else _) c = (inr ?kv, ?s),
    Hr : relpos_vectors _ _ _ _ _ ?s = (inr ?rel, _),
    Hw : attention_weights _ _ _ _ _ = inr _ |- _ =>
      apply project_sizes in Hq; destruct Hq as (_ & Q1 & _);
      apply project_sizes in Hk; destruct Hk as (_ & K1 & _);
      exists q, (fst kv), rel;
      split; [exact Q1 |];
      destruct (_cell_mode c) eqn:Ecm;
      [ pose proof (keeps_update_prev kk a4 c) as Hs;
        rewrite Hu in Hs; cbn [snd] in Hs; destruct Hs as (_ & Hcm & _);
        split; [discriminate |]; split; [| exact Hw];
        apply (relpos_vectors_shaped _ _ _ _ _ _ _ _ Hr);
        left; congruence
      | minv_all; cbn [fst] in *;
        split; [intros _; exact K1 |]; split; [| exact Hw];
        apply (relpos_vectors_shaped _ _ _ _ _ _ _ _ Hr);
        right; symmetry; exact K1 ]
  end.
Qed.

(** ** Scores of a returned call *)







(** ** Causality *)

Lemma all_below_false_at (n i : nat) (p : nat -> bool) :
  i < n -> p i = false -> all_below n p = false.
Proof.
  intros Hi Hp. destruct (all_below n p) eqn:E; [| reflexivity].
  rewrite all_below_spec in E. rewrite (E i Hi) in Hp. discriminate.
Qed.








(** ** The relative-position cache across calls *)

Lemma relpos_projections_state (vec _k : tensor3 R)
    (batsize q_len k_len : nat) (s s' : t) (rel : relpos_tensors) :
  relpos_projections vec _k batsize q_len k_len s = (inr rel, s') ->
  s' = count_relpos_proj_call s.
Proof.
  unfold relpos_projections. intros H. minv_all.
  destruct (relpos_k_proj (hp s)) as [rk |]; minv_all.
  - destruct (_cell_mode (count_relpos_proj_call s)); minv_all.
    reflexivity.
  - reflexivity.
Qed.

Lemma fill_relpos_cache_state (emb : Embedding) (x : tensor3 R)
    (q_len k_len : nat) (c s : t) (u : unit) :
  fill_relpos_cache emb x q_len k_len c = (inr u, s) ->
  s = set_cache_relpos_sizes (Some (q_len, k_len))
        (set_cache_relpos_vec
           (Some (lookup emb (t3_device x) q_len k_len
                         (relpos_index (maxlen (hp c)) q_len k_len)))
           (count_relpos_emb_call c)).
Proof.
  unfold fill_relpos_cache. intros H. minv_all.
  match goal with
  | He : Embedding_forward _ _ _ _ _ = inr _ |- _ =>
      apply Embedding_forward_inv in He; subst
  end.
  reflexivity.
Qed.





Lemma returned {A : Type} (r : result A * t) :
  (exists a : A, fst r = inr a) -> exists a : A, r = (inr a, snd r).
Proof.
  destruct r as [[e | a] s]; cbn; intros [a' E]; [discriminate |].
  exists a. reflexivity.
Qed.



(** ** Calls on two objects that differ in their caches *)

Lemma agrees_bind {A B : Type} (m : M t A) (f : A -> M t B) :
  agrees m -> (forall a : A, agrees (f a)) -> agrees (bind m f).
Proof.
  intros Hm Hf c1 c2 Ht. unfold bind.
  destruct (Hm c1 c2 Ht) as [Hr Hs].
  destruct (m c1) as [[e1 | a1] s1], (m c2) as [[e2 | a2] s2];
    cbn [fst snd] in *; try discriminate.
  - injection Hr as <-. split; [reflexivity | exact Hs].
  - injection Hr as <-. apply Hf. exact Hs.
Qed.

Lemma agrees_ret {A : Type} (a : A) : agrees (ret a).
Proof. intros c1 c2 Ht. split; [reflexivity | exact Ht]. Qed.

Lemma agrees_raise {A : Type} (e : exn) : agrees (@raise t A e).
Proof. intros c1 c2 Ht. split; [reflexivity | exact Ht]. Qed.

Lemma agrees_lift {A : Type} (r : result A) : agrees (lift r).
Proof. intros c1 c2 Ht. split; [reflexivity | exact Ht]. Qed.

Lemma agrees_assert (b : bool) : agrees (assert b).
Proof.
  intros c1 c2 Ht. destruct b; (split; [reflexivity | exact Ht]).
Qed.

Lemma agrees_gets {A : Type} (f : t -> A) :
  (forall c1 c2 : t, same_but_cache c1 c2 -> f c1 = f c2) ->
  agrees (gets f).
Proof.
  intros Hf c1 c2 Ht. unfold gets. cbn [fst snd].
  split; [f_equal; apply Hf; apply Ht | exact Ht].
Qed.

Lemma agrees_modify (f : t -> t) :
  (forall c1 c2 : t, twin c1 c2 -> twin (f c1) (f c2)) ->
  agrees (modify f).
Proof.
  intros Hf c1 c2 Ht. unfold modify. cbn [fst snd].
  split; [reflexivity | apply Hf; exact Ht].
Qed.

Lemma agrees_gets_hp : agrees (gets hp).
Proof. apply agrees_gets. unfold same_but_cache. intros; intuition congruence. Qed.

Lemma agrees_gets_cell_mode : agrees (gets _cell_mode).
Proof. apply agrees_gets. unfold same_but_cache. intros; intuition congruence. Qed.

Lemma agrees_gets_horizon : agrees (gets _horizon).
Proof. apply agrees_gets. unfold same_but_cache. intros; intuition congruence. Qed.

Lemma agrees_gets_prev_k : agrees (gets _prev_k).
Proof. apply agrees_gets. unfold same_but_cache. intros; intuition congruence. Qed.

Lemma agrees_gets_prev_v : agrees (gets _prev_v).
Proof. apply agrees_gets. unfold same_but_cache. intros; intuition congruence. Qed.

Lemma agrees_set_prev_k (x : option (tensor4 R)) :
  agrees (modify (set_prev_k x)).
Proof.
  apply agrees_modify. unfold twin, same_but_cache, cache_coherent.
  intros c1 c2. cbn. tauto.
Qed.

Lemma agrees_set_prev_v (x : option (tensor4 R)) :
  agrees (modify (set_prev_v x)).
Proof.
  apply agrees_modify. unfold twin, same_but_cache, cache_coherent.
  intros c1 c2. cbn. tauto.
Qed.

Lemma agrees_count_proj : agrees (modify count_relpos_proj_call).
Proof.
  apply agrees_modify. unfold twin, same_but_cache, cache_coherent.
  intros c1 c2. cbn. tauto.
Qed.

(** Decomposition of a goal [agrees m] along the structure of [m]. *)
Ltac agrees_with known :=
  repeat first
    [ known
    | apply agrees_ret | apply agrees_raise | apply agrees_lift
    | apply agrees_assert
    | apply agrees_gets_hp | apply agrees_gets_cell_mode
    | apply agrees_gets_horizon
    | apply agrees_gets_prev_k | apply agrees_gets_prev_v
    | apply agrees_set_prev_k | apply agrees_set_prev_v
    | apply agrees_count_proj
    | apply agrees_bind; [| intros ?]
    | match goal with
      | |- agrees (if ?b then _ else _) => destruct b
      | |- agrees (match ?x with _ => _ end) => destruct x
      end ].

Lemma agrees_update_prev (k v : tensor4 R) : agrees (update_prev k v).
Proof. unfold update_prev. agrees_with fail. Qed.

Lemma agrees_relpos_projections (vec _k : tensor3 R)
    (batsize q_len k_len : nat) :
  agrees (relpos_projections vec _k batsize q_len k_len).
Proof. unfold relpos_projections. agrees_with fail. Qed.

(** Under coherence the outcome of the refresh is fixed by the sizes and
    the device, whatever the slot holds. *)
Lemma refresh_determined (c : t) (emb : Embedding) (x : tensor3 R)
    (q_len k_len : nat) :
  relpos_emb (hp c) = Some emb -> cache_coherent c ->
  let r := if q_len <=? k_len
           then Embedding_forward emb (t3_device x) q_len k_len
                  (relpos_index (maxlen (hp c)) q_len k_len)
           else inl AssertionError in
  let s := snd (refresh_relpos_cache emb x q_len k_len c) in
  fst (refresh_relpos_cache emb x q_len k_len c)
  = match r with inl e => inl e | inr _ => inr tt end
  /\ same_but_cache c s /\ cache_coherent s
  /\ (forall vec : tensor3 R, r = inr vec -> _cache_relpos_vec s = Some vec).
Proof.
  intros He Hcoh r s.
  assert (Hfill :
    let s := snd (fill_relpos_cache emb x q_len k_len c) in
    fst (fill_relpos_cache emb x q_len k_len c)
    = match r with inl e => inl e | inr _ => inr tt end
    /\ same_but_cache c s /\ cache_coherent s
    /\ (forall vec : tensor3 R,
           r = inr vec -> _cache_relpos_vec s = Some vec)).
  { subst r. unfold fill_relpos_cache. unmonad.
    destruct (Nat.leb_spec q_len k_len) as [Hle | Hlt].
    2:{ cbn. repeat split; try assumption. discriminate. }
    destruct (Embedding_forward emb (t3_device x) q_len k_len
                (relpos_index (maxlen (hp c)) q_len k_len))
      as [e | vec] eqn:Ev; cbn.
    - repeat split; try assumption. discriminate.
    - split; [reflexivity |]. split; [unfold same_but_cache; cbn; tauto |].
      split.
      + unfold cache_coherent. cbn. rewrite He. split; [exact Hle |].
        apply Embedding_forward_inv in Ev as Ev'. subst vec. exact Ev.
      + intros vec' [= <-]. reflexivity. }
  destruct (_cache_relpos_sizes c) as [[ql kl] |] eqn:Es.
  2:{ subst s. rewrite refresh_miss by (left; congruence). exact Hfill. }
  destruct (Nat.eq_dec ql q_len) as [-> | Hne1].
  2:{ subst s. rewrite refresh_miss by (left; congruence). exact Hfill. }
  destruct (Nat.eq_dec kl k_len) as [-> | Hne2].
  2:{ subst s. rewrite refresh_miss by (left; congruence). exact Hfill. }
  pose proof Hcoh as Hcoh'. unfold cache_coherent in Hcoh'.
  rewrite Es, He in Hcoh'.
  destruct (_cache_relpos_vec c) as [vec |] eqn:Ev; [| contradiction].
  destruct Hcoh' as [Hle Hvec].
  destruct (Nat.eq_dec (t3_device vec) (t3_device x)) as [Hd | Hd].
  - subst s r. rewrite (refresh_hit c emb x vec q_len k_len Es Ev Hd).
    cbn [fst snd]. apply Nat.leb_le in Hle. rewrite Hle.
    rewrite <- Hd, Hvec.
    split; [reflexivity |]. split; [apply same_but_cache_refl |].
    split; [exact Hcoh |].
    intros vec' [= <-]. exact Ev.
  - subst s.
    rewrite refresh_miss by (right; exists vec; split; assumption).
    exact Hfill.
Qed.

Lemma twin_trans_cache (c1 c2 s1 s2 : t) :
  twin c1 c2 -> same_but_cache c1 s1 -> same_but_cache c2 s2 ->
  cache_coherent s1 -> cache_coherent s2 -> twin s1 s2.
Proof.
  unfold twin, same_but_cache.
  intros ((A1 & A2 & A3 & A4 & A5 & A6) & _ & _)
         (B1 & B2 & B3 & B4 & B5 & B6) (C1 & C2 & C3 & C4 & C5 & C6) H1 H2.
  repeat split; try assumption; congruence.
Qed.

Lemma agrees_at_bind {A B : Type} (m : M t A) (f : A -> M t B)
    (c1 c2 : t) :
  fst (m c1) = fst (m c2) ->
  twin (snd (m c1)) (snd (m c2)) ->
  (forall a : A,
      fst (m c1) = inr a ->
      fst (f a (snd (m c1))) = fst (f a (snd (m c2)))
      /\ twin (snd (f a (snd (m c1)))) (snd (f a (snd (m c2))))) ->
  fst (bind m f c1) = fst (bind m f c2)
  /\ twin (snd (bind m f c1)) (snd (bind m f c2)).
Proof.
  intros Hr Hs Hf. unfold bind.
  destruct (m c1) as [[e1 | a1] s1], (m c2) as [[e2 | a2] s2];
    cbn [fst snd] in *; try discriminate.
  - injection Hr as <-. split; [reflexivity | exact Hs].
  - injection Hr as <-. apply Hf. reflexivity.
Qed.

Lemma agrees_relpos_vectors (x _k : tensor3 R) (batsize q_len k_len : nat) :
  agrees (relpos_vectors x _k batsize q_len k_len).
Proof.
  intros c1 c2 Ht. pose proof Ht as ((Hp & _) & Hcoh1 & Hcoh2).
  unfold relpos_vectors, bind, gets. cbv beta iota.
  rewrite Hp.
  destruct (relpos_emb (hp c1)) as [emb |] eqn:He;
    [| split; [reflexivity | exact Ht]].
  assert (Hon :
    fst (relpos_branch emb x _k batsize q_len k_len c1)
    = fst (relpos_branch emb x _k batsize q_len k_len c2)
    /\ twin (snd (relpos_branch emb x _k batsize q_len k_len c1))
            (snd (relpos_branch emb x _k batsize q_len k_len c2))).
  { assert (He2 : relpos_emb (hp c2) = Some emb) by (rewrite Hp; exact He).
    destruct (refresh_determined c1 emb x q_len k_len He Hcoh1)
      as (R1 & S1 & C1 & V1).
    destruct (refresh_determined c2 emb x q_len k_len He2 Hcoh2)
      as (R2 & S2 & C2 & V2).
    rewrite Hp in R2, V2.
    pose proof (twin_trans_cache _ _ _ _ Ht S1 S2 C1 C2) as Ht'.
    unfold relpos_branch. apply agrees_at_bind.
    - rewrite R1, R2. reflexivity.
    - exact Ht'.
    - intros u Hu. rewrite R1 in Hu.
      destruct (if q_len <=? k_len
                then Embedding_forward emb (t3_device x) q_len k_len
                       (relpos_index (maxlen (hp c1)) q_len k_len)
                else inl AssertionError) as [e | vec];
        [discriminate Hu |].
      unfold bind, gets.
      rewrite (V1 vec eq_refl), (V2 vec eq_refl).
      apply agrees_relpos_projections. exact Ht'. }
  destruct (relpos (hp c1)); [split; [reflexivity | exact Ht] | | ];
    exact Hon.
Qed.

Lemma agrees_attend (x : tensor3 R) (k v : option (tensor3 R))
    (mask : option (tensor2 bool)) :
  agrees (attend x k v mask).
Proof.
  unfold attend.
  agrees_with ltac:(first [ apply agrees_update_prev
                          | apply agrees_relpos_vectors ]).
Qed.

Lemma agrees_forward (x : tensor3 R) (k v : option (tensor3 R))
    (mask : option (tensor2 bool)) :
  agrees (forward x k v mask).
Proof. unfold forward. agrees_with ltac:(apply agrees_attend). Qed.

(** ** Length of the history *)

Lemma cat1_length {A : Type} (x y z : tensor4 A) :
  cat1 x y = inr z -> t4_size1 z = t4_size1 x + t4_size1 y.
Proof.
  unfold cat1. destruct (_ && _); [| discriminate].
  intros [= <-]. reflexivity.
Qed.

Lemma update_prev_length (k v : tensor4 R) (c s : t)
    (kv : tensor4 R * tensor4 R) :
  update_prev k v c = (inr kv, s) ->
  history_length (_prev_k s) = S (history_length (_prev_k c))
  /\ history_length (_prev_v s) = S (history_length (_prev_v c)).
Proof.
  unfold update_prev. intros H. minv_all.
  match goal with
  | H0 : (t4_size1 k =? 1) = true, H1 : (t4_size1 v =? 1) = true |- _ =>
      apply Nat.eqb_eq in H0, H1; rename H0 into K1; rename H1 into V1
  end.
  assert (Es : s = s3).
  { destruct (_prev_k s3), (_prev_v s3), (_horizon s3); minv_all;
      try discriminate H.
    match goal with
    | Hh : (if ?b then _ else _) _ = (inr _, _) |- _ =>
        destruct b; minv_all; reflexivity
    end. }
  subst s3. clear H.
  destruct (_prev_k c) as [pk |] eqn:Ek.
  - minv_all. cbn [_prev_v set_prev_k] in *.
    destruct (_prev_v c) as [pv |] eqn:Ev; minv_all.
    repeat match goal with
           | Hc : cat1 _ _ = inr _ |- _ => apply cat1_length in Hc
           end.
    cbn [history_length _prev_k _prev_v set_prev_k set_prev_v].
    split; lia.
  - minv_all. destruct (_prev_v c) as [pv |] eqn:Ev; [discriminate |].
    cbn [history_length _prev_k _prev_v set_prev_k set_prev_v].
    split; lia.
Qed.

Lemma refresh_history (emb : Embedding) (x : tensor3 R)
    (q_len k_len : nat) (c s : t) (u : unit) :
  refresh_relpos_cache emb x q_len k_len c = (inr u, s) ->
  _prev_k s = _prev_k c /\ _prev_v s = _prev_v c.
Proof.
  unfold refresh_relpos_cache. intros H. minv_all.
  match goal with
  | Hst : match _cache_relpos_sizes c with _ => _ end c = (inr ?b, ?s1)
    |- _ =>
      assert (Es : s1 = c)
        by (destruct (_cache_relpos_sizes c) as [[ql kl] |];
            [destruct ((ql =? q_len) && (kl =? k_len));
             [destruct (_cache_relpos_vec c) |] |];
            minv_all; reflexivity);
      subst s1; clear Hst; destruct b
  end.
  - apply fill_relpos_cache_state in H. subst s. cbn. auto.
  - minv_all. auto.
Qed.

Lemma relpos_vectors_history (x _k : tensor3 R) (batsize q_len k_len : nat)
    (c c' : t) (rel : relpos_tensors) :
  relpos_vectors x _k batsize q_len k_len c = (inr rel, c') ->
  _prev_k c' = _prev_k c /\ _prev_v c' = _prev_v c.
Proof.
  unfold relpos_vectors. intros H. minv_all.
  destruct (relpos_emb (hp c)) as [emb |]; [| minv_all; auto].
  assert (Hon : relpos_branch emb x _k batsize q_len k_len c = (inr rel, c')
                -> _prev_k c' = _prev_k c /\ _prev_v c' = _prev_v c).
  { clear H. unfold relpos_branch. intros H.
    apply bind_inr in H. destruct H as (u & s & Hr & H).
    apply refresh_history in Hr. destruct Hr as [<- <-].
    minv_all. destruct (_cache_relpos_vec s) as [vec |]; [| discriminate H].
    apply relpos_projections_state in H. subst c'. cbn. auto. }
  destruct (relpos (hp c)); [minv_all; auto | auto | auto].
Qed.

(** A returned call in cell mode has appended one step. *)
Lemma forward_cell_length (c c' : t) (x : tensor3 R)
    (k v : option (tensor3 R)) (mask : option (tensor2 bool))
    (out : tensor3 (option R)) :
  _cell_mode c = true ->
  forward x k v mask c = (inr out, c') ->
  history_length (_prev_k c') = S (history_length (_prev_k c))
  /\ history_length (_prev_v c') = S (history_length (_prev_v c)).
Proof.
  intros Hcm H. unfold forward in H.
  apply bind_inr in H. destruct H as ([w vv] & s & Ha & H). minv_all.
  unfold attend in Ha. minv_all. rewrite Hcm in *.
  match goal with
  | Hm : match mask with _ => _ end c = (inr _, ?s1) |- _ =>
      assert (Es : s1 = c) by (destruct mask; minv_all; reflexivity);
      subst s1; clear Hm
  end.
  match goal with
  | Hu : update_prev _ _ c = (inr _, ?s1),
    Hr : relpos_vectors _ _ _ _ _ ?s1 = (inr _, _) |- _ =>
      apply update_prev_length in Hu;
      apply relpos_vectors_history in Hr;
      destruct Hr as [-> ->]; exact Hu
  end.
Qed.

Lemma after_steps_settings (xs : list (tensor3 R)) (c : t) :
  same_settings c (after_steps xs c).
Proof.
  revert c. induction xs as [| x xs IH]; intros c; cbn [after_steps].
  - apply same_settings_refl.
  - eapply same_settings_trans; [| apply IH].
    apply keeps_forward.
Qed.

(** A run of returned steps in cell mode leaves one step per call in the
    history. *)
Lemma forward_steps_length (xs : list (tensor3 R)) (c c' : t)
    (outs : list (tensor3 (option R))) :
  _cell_mode c = true ->
  forward_steps xs c = (inr outs, c') ->
  after_steps xs c = c'
  /\ history_length (_prev_k c') = history_length (_prev_k c) + length xs
  /\ history_length (_prev_v c') = history_length (_prev_v c) + length xs.
Proof.
  revert c outs. induction xs as [| x xs IH]; intros c outs Hcm H.
  - cbn [forward_steps] in H. minv_all. cbn. auto.
  - cbn [forward_steps] in H.
    apply bind_inr in H. destruct H as (o & s & Hf & H).
    apply bind_inr in H. destruct H as (os & s' & Hs & H). minv_all.
    pose proof (keeps_forward x None None None c) as Hk.
    rewrite Hf in Hk. cbn [snd] in Hk. destruct Hk as (_ & Hcm' & _).
    destruct (forward_cell_length c s x None None None o Hcm Hf) as [L1 L2].
    destruct (IH s os ltac:(congruence) Hs) as (E & L3 & L4).
    cbn [after_steps length]. rewrite Hf. cbn [snd].
    split; [exact E |]. split; lia.
Qed.

(** ** Reset between sequences *)

(** [rec_reset] with the language-model flag off empties the history and
    touches nothing else. *)
Lemma rec_reset_clears (c : t) :
  _lm_mode c = false ->
  rec_reset c = (inr tt, set_prev_v None (set_prev_k None c)).
Proof.
  intros Hlm. unfold rec_reset, epoch_reset. unmonad.
  rewrite Hlm. reflexivity.
Qed.

(** With the flag on it is a no-op. *)
Lemma rec_reset_lm (c : t) :
  _lm_mode c = true -> rec_reset c = (inr tt, c).
Proof.
  intros Hlm. unfold rec_reset. unmonad. rewrite Hlm. reflexivity.
Qed.

(** C5 (reset semantics). Let [c0] be a fresh module (empty key and value
    history) and [xs] the inputs of the steps already fed to it.  When
    [_lm_mode] is off, [rec_reset] returns and leaves both histories empty,
    and the next [forward] call then gives the result (output or exception)
    and the histories that the same call gives on the fresh module.  When
    [_lm_mode] is on, [rec_reset] returns the object as it is, so the next
    call is the one made without the reset; and if the module is in cell
    mode and the steps returned, both histories still hold one entry per
    step. *)
Theorem rec_reset_semantics (c0 : t) (xs : list (tensor3 R)) (x : tensor3 R)
    (k v : option (tensor3 R)) (mask : option (tensor2 bool)) :
  _prev_k c0 = None -> _prev_v c0 = None -> cache_coherent c0 ->
  (_lm_mode c0 = false ->
   exists cr : t,
     rec_reset (after_steps xs c0) = (inr tt, cr)
     /\ _prev_k cr = None /\ _prev_v cr = None
     /\ fst (forward x k v mask cr) = fst (forward x k v mask c0)
     /\ _prev_k (snd (forward x k v mask cr))
        = _prev_k (snd (forward x k v mask c0))
     /\ _prev_v (snd (forward x k v mask cr))
        = _prev_v (snd (forward x k v mask c0)))
  /\ (_lm_mode c0 = true ->
      rec_reset (after_steps xs c0) = (inr tt, after_steps xs c0)
      /\ forward x k v mask (snd (rec_reset (after_steps xs c0)))
         = forward x k v mask (after_steps xs c0)
      /\ (_cell_mode c0 = true ->
          forall (outs : list (tensor3 (option R))) (c' : t),
            forward_steps xs c0 = (inr outs, c') ->
            history_length (_prev_k (after_steps xs c0)) = length xs
            /\ history_length (_prev_v (after_steps xs c0)) = length xs)).
Proof.
  intros Hk Hv Hco.
  destruct (after_steps_settings xs c0) as (Hp & Hcm & Hh & Hlm & Hcoh).
  split.
  - intros Hoff.
    exists (set_prev_v None (set_prev_k None (after_steps xs c0))).
    split; [apply rec_reset_clears; congruence |].
    split; [reflexivity |]. split; [reflexivity |].
    assert (Htw : twin (set_prev_v None (set_prev_k None (after_steps xs c0)))
                       c0).
    { split; [| split; [exact (Hcoh Hco) | exact Hco]].
      unfold same_but_cache.
      cbn [hp _cell_mode _horizon _prev_k _prev_v _lm_mode
           set_prev_k set_prev_v].
      repeat split; congruence. }
    destruct (agrees_forward x k v mask _ _ Htw) as (Hr & Hsb & _ & _).
    split; [exact Hr |].
    destruct Hsb as (_ & _ & _ & Hpk & Hpv & _).
    split; congruence.
  - intros Hon.
    assert (E : rec_reset (after_steps xs c0) = (inr tt, after_steps xs c0))
      by (apply rec_reset_lm; congruence).
    split; [exact E |]. split; [rewrite E; reflexivity |].
    intros Hcell outs c' Hrun.
    destruct (forward_steps_length xs c0 c' outs Hcell Hrun) as (<- & L1 & L2).
    rewrite Hk in L1. rewrite Hv in L2. cbn [history_length] in L1, L2.
    split; lia.
Qed.

Lemma rec_reset_semantics_witness :
  (exists cr : t,
     rec_reset (after_steps [zeros3 1 1 2] (cell_core RelposTrue 2))
     = (inr tt, cr)
     /\ _prev_k cr = None /\ _prev_v cr = None
     /\ fst (forward (zeros3 1 1 2) None None None cr)
        = fst (forward (zeros3 1 1 2) None None None (cell_core RelposTrue 2)))
  /\ (rec_reset (after_steps [zeros3 1 1 2] (lm_core RelposTrue 2))
      = (inr tt, after_steps [zeros3 1 1 2] (lm_core RelposTrue 2))
      /\ history_length
           (_prev_k (after_steps [zeros3 1 1 2] (lm_core RelposTrue 2))) = 1).
Proof.
  split.
  - destruct (rec_reset_semantics (cell_core RelposTrue 2) [zeros3 1 1 2]
                (zeros3 1 1 2) None None None eq_refl eq_refl I)
      as [Hoff _].
    destruct (Hoff eq_refl) as (cr & E & Pk & Pv & Hr & _).
    exists cr. repeat split; assumption.
  - destruct (rec_reset_semantics (lm_core RelposTrue 2) [zeros3 1 1 2]
                (zeros3 1 1 2) None None None eq_refl eq_refl I)
      as [_ Hon].
    destruct (Hon eq_refl) as (E & _ & Hlen).
    split; [exact E |].
    destruct (returned (forward_steps [zeros3 1 1 2] (lm_core RelposTrue 2)))
      as [outs Erun]; [eexists; reflexivity |].
    destruct (Hlen eq_refl outs _ Erun) as [L _]. exact L.
Defined.

(** * Further properties of the module *)

(** ** Softmax rows *)










(** ** The padding mask *)

Lemma bdim_index (a b n j : nat) :
  bdim a b = Some n -> j < n -> bidx a j < a /\ bidx b j < b.
Proof.
  intros H Hj. unfold bidx.
  destruct (bdim_inv a b n H) as [[-> [-> | ->]] | [-> ->]];
    repeat match goal with
           | |- context [?x =? 1] => destruct (Nat.eqb_spec x 1)
           end; lia.
Qed.

Lemma bidx_idem (n j : nat) : bidx n (bidx n j) = bidx n j.
Proof. unfold bidx. destruct (n =? 1); reflexivity. Qed.

Lemma bidx_zero (n : nat) : bidx n 0 = 0.
Proof. unfold bidx. destruct (n =? 1); reflexivity. Qed.

(** The whole mask of a call with padding mask [m]: its batch axis is that
    of [m], and its entry is 0 wherever [m] hides the key. *)
Lemma whole_mask_hidden (p : params) (q_len k_len : nat) (m : tensor2 bool)
    (om : option (tensor4 R)) :
  whole_mask p q_len k_len (Some m) = inr om ->
  exists M : tensor4 R,
    om = Some M
    /\ t4_size0 M = t2_size0 m
    /\ forall b h i j : nat,
         b < t2_size0 m ->
         bidx (t4_size3 M) j < t4_size3 M ->
         (forall jm, jm < t2_size1 m ->
                     (t2_size1 m <> 1 -> jm = j) -> t2_elt m b jm = false) ->
         t4_elt M b h i (bidx (t4_size3 M) j) = 0%R.
Proof.
  unfold whole_mask. cbn [option_map].
  destruct (bidir p).
  - intros [= <-]. exists (float_mask m). split; [reflexivity |].
    split; [reflexivity |].
    cbn [float_mask t4_size0 t4_size3 t4_elt].
    intros b h i j Hb Hj Hm.
    rewrite Hm; [reflexivity | exact Hj |].
    intros Hne. unfold bidx.
    destruct (Nat.eqb_spec (t2_size1 m) 1); [contradiction | reflexivity].
  - intros H. apply rbind_inr in H. destruct H as (M & HM & [= <-]).
    exists M. split; [reflexivity |].
    apply broadcast4_inv in HM.
    destruct HM as (n0 & n1 & n2 & n3 & B0 & _ & _ & B3 & ->).
    cbn [zip4 t4_size0 t4_size3 t4_elt float_mask tril_ones last_rows] in *.
    assert (E0 : n0 = t2_size0 m).
    { apply (bdim_absorbs _ _ _ B0). right.
      destruct (q_len <? t4_size2 (tril_ones k_len)); reflexivity. }
    split; [exact E0 |].
    intros b h i j Hb Hj Hm.
    destruct (bdim_index _ _ _ _ B3 Hj) as [Hj' _].
    rewrite (bidx_lt _ _ Hb).
    rewrite Hm; [apply Rmult_0_l | exact Hj' |].
    intros Hne.
    destruct (bdim_inv _ _ _ B3) as [[-> _] | [_ E1]]; [| contradiction].
    unfold bidx. destruct (Nat.eqb_spec (t2_size1 m) 1);
      [contradiction | reflexivity].
Qed.

Lemma add_log_hidden (a : score) : sexp (add_log a 0) = 0%R.
Proof.
  destruct a as [r | |]; cbn [add_log sexp]; try reflexivity.
  destruct (Req_dec_T 0 0) as [_ | Hne]; [reflexivity | contradiction Hne; reflexivity].
Qed.

Lemma add_log_hidden_cases (a : score) :
  add_log a 0 = MinusInf \/ add_log a 0 = NaN.
Proof.
  destruct a as [r | |]; cbn [add_log]; auto.
  destruct (Req_dec_T 0 0) as [_ | Hne]; [auto | contradiction Hne; reflexivity].
Qed.

(** A key whose score had [log 0] added has weight 0, unless the row has
    no softmax. *)
Lemma softmax_row_hidden (n : nat) (row : nat -> score) (j : nat) (a : score) :
  row j = add_log a 0 ->
  softmax_row n row j = Some 0%R \/ forall z, softmax_row n row z = None.
Proof.
  intros Hj. unfold softmax_row.
  destruct (any_below n (fun j => is_nan (row j))
            || all_below n (fun j => is_minus_inf (row j)));
    [right; reflexivity | left].
  rewrite Hj, add_log_hidden. f_equal. unfold Rdiv. apply Rmult_0_l.
Qed.

(** A row all of whose scores had [log 0] added has no softmax. *)
Lemma softmax_row_all_hidden (n : nat) (row : nat -> score) :
  (forall z, z < n -> exists a, row z = add_log a 0) ->
  forall z, softmax_row n row z = None.
Proof.
  intros Hall z. unfold softmax_row.
  destruct (any_below n (fun j => is_nan (row j))) eqn:Hnan;
    [reflexivity |].
  replace (all_below n (fun j => is_minus_inf (row j))) with true;
    [reflexivity |].
  symmetry. apply all_below_spec. intros i Hi.
  destruct (Hall i Hi) as (a & Ha).
  pose proof (proj1 (any_below_false n _) Hnan i Hi) as Ni. cbv beta in Ni.
  destruct (add_log_hidden_cases a) as [E | E]; rewrite Ha, E in *;
    [reflexivity | discriminate Ni].
Qed.

(** The weights of a call with padding mask [m], row by row. *)
Lemma masked_weights_rows (p : params) (q k : tensor4 R)
    (rel : relpos_tensors) (m : tensor2 bool) (w : tensor4 (option R)) :
  attention_weights p q k rel (Some m) = inr w ->
  exists (s : tensor4 score) (M : tensor4 R) (n0 n3 : nat),
    whole_mask p (t4_size1 q) (t4_size3 s) (Some m) = inr (Some M)
    /\ bdim (t4_size0 s) (t4_size0 M) = Some n0
    /\ bdim (t4_size3 s) (t4_size3 M) = Some n3
    /\ t4_size0 w = n0 /\ t4_size3 w = n3
    /\ forall b h i j : nat,
         t4_elt w b h i j
         = softmax_row n3
             (fun z =>
                add_log (t4_elt s (bidx (t4_size0 s) b) (bidx (t4_size1 s) h)
                                  (bidx (t4_size2 s) i) (bidx (t4_size3 s) z))
                        (t4_elt M (bidx (t4_size0 M) b) (bidx (t4_size1 M) h)
                                  (bidx (t4_size2 M) i) (bidx (t4_size3 M) z)))
             j.
Proof.
  unfold attention_weights. intros H.
  apply rbind_inr in H. destruct H as (s & _ & H).
  apply rbind_inr in H. destruct H as (om & Hm & H).
  destruct (whole_mask_hidden _ _ _ _ _ Hm) as (M & -> & _).
  apply rbind_inr in H. destruct H as (s' & Hs' & [= <-]).
  apply broadcast4_inv in Hs'.
  destruct Hs' as (n0 & n1 & n2 & n3 & B0 & _ & _ & B3 & ->).
  exists s, M, n0, n3. repeat split; try assumption.
Qed.

(** X2 (padding mask).  In a returned call with padding mask [m], a key
    that [m] hides for sample [b] gets weight exactly 0 from every query of
    every head of that sample, unless the whole row is undefined. *)
Theorem hidden_key_has_no_weight
    (c c' : t) (x : tensor3 R) (k v : option (tensor3 R))
    (m : tensor2 bool) (w : tensor4 (option R)) (vv : tensor4 R) :
  attend x k v (Some m) c = (inr (w, vv), c') ->
  forall b h i j : nat,
    b < t2_size0 m -> j < t2_size1 m -> j < t4_size3 w ->
    t2_elt m b j = false ->
    t4_elt w b h i j = Some 0%R
    \/ forall z, t4_elt w b h i z = None.
Proof.
  intros H b h i j Hb Hj Hjw Hm.
  destruct (attend_inv c c' x k v (Some m) w vv H)
    as (q & kf & rel & _ & _ & _ & Hw).
  destruct (masked_weights_rows _ _ _ _ _ _ Hw)
    as (s & M & n0 & n3 & HM & B0 & B3 & _ & W3 & Helt).
  destruct (whole_mask_hidden _ _ _ _ _ HM) as (M' & [= <-] & M0 & Hzero).
  rewrite (Helt b h i j).
  assert (E : (fun z => add_log
                 (t4_elt s (bidx (t4_size0 s) b) (bidx (t4_size1 s) h)
                    (bidx (t4_size2 s) i) (bidx (t4_size3 s) z))
                 (t4_elt M (bidx (t4_size0 M) b) (bidx (t4_size1 M) h)
                    (bidx (t4_size2 M) i) (bidx (t4_size3 M) z))) j
              = add_log (t4_elt s (bidx (t4_size0 s) b) (bidx (t4_size1 s) h)
                           (bidx (t4_size2 s) i) (bidx (t4_size3 s) j)) 0).
  { cbv beta. f_equal. rewrite M0, (bidx_lt _ _ Hb).
    apply Hzero; [exact Hb | |].
    - apply (bdim_index _ _ _ _ B3). rewrite <- W3. exact Hjw.
    - intros jm Hjm Hsame.
      destruct (Nat.eq_dec (t2_size1 m) 1) as [E1 | Hne].
      + replace jm with j by lia. exact Hm.
      + rewrite (Hsame Hne). exact Hm. }
  destruct (softmax_row_hidden n3 _ j _ E) as [Hz | Hn].
  - left. exact Hz.
  - right. intros z. rewrite (Helt b h i z). apply Hn.
Qed.

Lemma hidden_key_has_no_weight_witness :
  let m := Tensor2 1 2 (fun _ j => j =? 0) in
  exists (w : tensor4 (option R)) (vv : tensor4 R) (c' : t),
    attend (zeros3 1 2 2) None None (Some m) (small_core RelposFalse)
    = (inr (w, vv), c')
    /\ (t4_elt w 0 0 0 1 = Some 0%R
        \/ forall z, t4_elt w 0 0 0 z = None).
Proof.
  intros m.
  destruct (attend (zeros3 1 2 2) None None (Some m) (small_core RelposFalse))
    as [[e | [w vv]] c'] eqn:E; [discriminate E |].
  exists w, vv, c'. split; [reflexivity |].
  apply (hidden_key_has_no_weight _ _ _ _ _ _ _ _ E 0 0 0 1).
  - cbn. lia.
  - cbn. lia.
  - injection E as <- _ _. cbn. lia.
  - reflexivity.
Defined.

(** ** Reading a returned call backwards *)

Lemma attend_noncell (c c' : t) (x : tensor3 R) (k v : option (tensor3 R))
    (mask : option (tensor2 bool)) (w : tensor4 (option R))
    (vv : tensor4 R) :
  _cell_mode c = false ->
  attend x k v mask c = (inr (w, vv), c') ->
  let p := hp c in
  let _k := match k with None => x | Some k => k end in
  let _v := match v with None => _k | Some v => v end in
  exists (q kf : tensor4 R) (rel : relpos_tensors),
    project (q_proj p) x (t3_size0 x) (numheads p) (d_k p) = inr q
    /\ project (k_proj p) _k (t3_size0 x) (numheads p) (d_k p) = inr kf
    /\ project (v_proj p) _v (t3_size0 x) (numheads p) (d_v p) = inr vv
    /\ relpos_vectors x _k (t3_size0 x) (t4_size1 q) (t4_size1 kf) c
       = (inr rel, c')
    /\ attention_weights p q kf rel mask = inr w.
Proof.
  intros Hcm H p _k _v. unfold attend in H. minv_all.
  rewrite Hcm in *. minv_all. cbn [fst snd] in *.
  injection H as -> ->.
  eexists _, _, _. repeat split; eassumption.
Qed.

Lemma forward_inv (c c' : t) (x : tensor3 R) (k v : option (tensor3 R))
    (mask : option (tensor2 bool)) (out : tensor3 (option R)) :
  forward x k v mask c = (inr out, c') ->
  exists (w : tensor4 (option R)) (vv : tensor4 R),
    attend x k v mask c = (inr (w, vv), c')
    /\ output (hp c) (t3_device x) w vv = inr out.
Proof.
  intros H. unfold forward in H.
  apply bind_inr in H. destruct H as ([w vv] & s & Ha & H). minv_all.
  exists w, vv. split; [exact Ha |].
  pose proof (keeps_attend x k v mask c) as Hs. rewrite Ha in Hs.
  cbn [snd fst] in *. destruct Hs as (Hp & _). rewrite <- Hp. exact H.
Qed.

Lemma forward_mask_cell_mode (c c' : t) (x : tensor3 R)
    (k v : option (tensor3 R)) (m : tensor2 bool)
    (out : tensor3 (option R)) :
  forward x k v (Some m) c = (inr out, c') -> _cell_mode c = false.
Proof.
  intros H. destruct (_cell_mode c) eqn:Hcm; [| reflexivity].
  unfold forward, attend in H.
  cbv beta iota zeta delta [bind ret raise gets modify lift assert rbind] in H.
  rewrite Hcm in H. discriminate H.
Qed.

Lemma osum_n_undefined (n : nat) (f : nat -> option R) :
  1 <= n -> (forall j, j < n -> f j = None) -> osum_n n f = None.
Proof.
  intros Hn H. destruct n as [| n]; [lia |].
  cbn [osum_n]. rewrite (H n); [| lia].
  destruct (osum_n n f); reflexivity.
Qed.

(** X3 (a sample with every key hidden).  When the padding mask hides
    every key of sample [b], a returned call gives an undefined output
    (NaN) at every position and every feature of that sample: each row of
    scores is [-inf] throughout and has no softmax. *)
Theorem fully_padded_sample_is_undefined
    (c c' : t) (x : tensor3 R) (k v : option (tensor3 R))
    (m : tensor2 bool) (out : tensor3 (option R)) :
  forward x k v (Some m) c = (inr out, c') ->
  let _k := match k with None => x | Some k => k end in
  let _v := match v with None => _k | Some v => v end in
  1 <= t3_size1 _v -> 1 <= in_features (vw_proj (hp c)) ->
  forall b : nat,
    b < t2_size0 m ->
    (forall j, j < t2_size1 m -> t2_elt m b j = false) ->
    forall s o : nat, t3_elt out b s o = None.
Proof.
  intros H _k _v Hkeys Hin b Hb Hm s o.
  pose proof (forward_mask_cell_mode _ _ _ _ _ _ _ H) as Hcm.
  destruct (forward_inv _ _ _ _ _ _ _ H) as (w & vv & Ha & Ho).
  destruct (attend_noncell _ _ _ _ _ _ _ _ Hcm Ha)
    as (q & kf & rel & _ & _ & Hv & _ & Hw).
  apply project_sizes in Hv. destruct Hv as (_ & V1 & _).
  fold _k _v in V1.
  destruct (masked_weights_rows _ _ _ _ _ _ Hw)
    as (sc & M & n0 & n3 & HM & B0 & B3 & _ & W3 & Helt).
  destruct (whole_mask_hidden _ _ _ _ _ HM) as (M' & [= <-] & M0 & Hzero).
  assert (Hrow : forall h i z, t4_elt w b h i z = None).
  { intros h i z. rewrite (Helt b h i z).
    apply softmax_row_all_hidden. intros z' Hz'.
    eexists. cbv beta. f_equal.
    rewrite M0, (bidx_lt _ _ Hb).
    apply Hzero; [exact Hb | |].
    - apply (bdim_index _ _ _ _ B3 Hz').
    - intros jm Hjm _. apply Hm. exact Hjm. }
  unfold output in Ho.
  apply rbind_inr in Ho. destruct Ho as (vw & Hvw & Ho).
  unfold einsum_bhsz_bzhd in Hvw.
  destruct (_ && _) eqn:Hsz in Hvw; [| discriminate Hvw].
  injection Hvw as <-.
  apply andb_prop in Hsz. destruct Hsz as [_ Hsz].
  apply Nat.eqb_eq in Hsz.
  unfold Linear_forward_o in Ho.
  destruct (_ =? _) in Ho; [| discriminate Ho].
  injection Ho as <-.
  cbn [Linear_apply_o t3_elt merge_heads mix t4_elt t4_size3].
  rewrite osum_n_undefined; [reflexivity | exact Hin |].
  intros j _.
  rewrite osum_n_undefined; [reflexivity | lia |].
  intros z _. rewrite Hrow. reflexivity.
Qed.

Lemma fully_padded_sample_is_undefined_witness :
  let m := Tensor2 1 2 (fun _ _ => false) in
  exists (out : tensor3 (option R)) (c' : t),
    forward (zeros3 1 2 2) None None (Some m) (small_core RelposFalse)
    = (inr out, c')
    /\ forall s o : nat, t3_elt out 0 s o = None.
Proof.
  intros m.
  destruct (forward (zeros3 1 2 2) None None (Some m)
              (small_core RelposFalse))
    as [[e | out] c'] eqn:E; [discriminate E |].
  exists out, c'. split; [reflexivity |].
  apply (fully_padded_sample_is_undefined _ _ _ _ _ _ _ E).
  - cbn. lia.
  - cbn. lia.
  - cbn. lia.
  - reflexivity.
Defined.

(** ** Sizes of the output *)







(** ** Malformed inputs *)

(** X5 (wrong input width).  When the width of [x] is not the input width
    of the query projection, the call raises at that projection, the first
    thing [forward] computes, and the object is left exactly as it was; in
    cell mode the history is not touched. *)
Theorem forward_wrong_width
    (c : t) (x : tensor3 R) (k v : option (tensor3 R))
    (mask : option (tensor2 bool)) :
  t3_size2 x <> in_features (q_proj (hp c)) ->
  mask = None \/ _cell_mode c = false ->
  forward x k v mask c = (inl RuntimeError, c).
Proof.
  intros Hx Hm. unfold forward, attend, project, Linear_forward.
  apply Nat.eqb_neq in Hx. unmonad.
  destruct Hm as [-> | ->]; [destruct (_cell_mode c) |];
    cbv beta iota; rewrite Hx; reflexivity.
Qed.

Lemma forward_wrong_width_witness :
  forward (zeros3 1 1 3) None None None (cell_core RelposTrue 2)
  = (inl RuntimeError, cell_core RelposTrue 2).
Proof.
  apply forward_wrong_width.
  - intros E. lazy in E. discriminate E.
  - left. reflexivity.
Defined.

(** X6 (a step of several positions).  In cell mode a self-attention call
    whose input does not hold exactly one position raises the assertion of
    [update_prev], before anything is appended: the object is left exactly
    as it was. *)
Theorem cell_step_needs_one_position (c : t) (x : tensor3 R) :
  well_formed (hp c) = true -> _cell_mode c = true ->
  t3_size2 x = indim (hp c) -> t3_size1 x <> 1 ->
  forward x None None None c = (inl AssertionError, c).
Proof.
  intros Hwf Hcm Hx Hlen.
  destruct (well_formed_layers _ Hwf) as (Q1 & Q2 & K1 & K2 & V1 & V2 & _).
  unfold forward, attend. unmonad. rewrite Hcm. cbv beta iota.
  rewrite !project_ok by congruence.
  unfold update_prev. unmonad.
  cbn [heads_of reshape4 t4_size1].
  apply Nat.eqb_neq in Hlen. rewrite Hlen. reflexivity.
Qed.

Lemma cell_step_needs_one_position_witness :
  forward (zeros3 1 2 2) None None None (cell_core RelposTrue 2)
  = (inl AssertionError, cell_core RelposTrue 2).
Proof.
  apply cell_step_needs_one_position.
  - reflexivity.
  - reflexivity.
  - reflexivity.
  - intros E. lazy in E. discriminate E.
Defined.

(** ** Beyond the horizon *)

(** A step on a history that already fills the horizon: it is appended and
    the call raises. *)
Lemma forward_overflow (c : t) (x : tensor3 R) (batsize m : nat) (h : Z) :
  well_formed (hp c) = true ->
  _cell_mode c = true -> _horizon c = Some h ->
  history_shaped c batsize m -> step_input (hp c) batsize x ->
  (h <= Z.of_nat m)%Z ->
  let p := hp c in
  let K := push (_prev_k c) (heads_of (k_proj p) x (numheads p) (d_k p)) in
  let V := push (_prev_v c) (heads_of (v_proj p) x (numheads p) (d_v p)) in
  let c1 := set_prev_v (Some V) (set_prev_k (Some K) c) in
  forward x None None None c = (inl (HorizonExceeded h (m + 1)), c1)
  /\ history_shaped c1 batsize (m + 1).
Proof.
  intros Hwf Hcm Hh Hshape Hx Hle p K V c1.
  split.
  - unfold forward.
    rewrite (attend_cell_prefix c x batsize m h _ _ Hwf Hcm Hh Hshape Hx).
    replace (Z.of_nat (m + 1) >? h)%Z with true
      by (symmetry; rewrite Z.gtb_ltb; apply Z.ltb_lt; lia).
    reflexivity.
  - destruct Hx as (X0 & X1 & X2).
    pose proof (push_sizes c batsize m
                  (heads_of (k_proj p) x (numheads p) (d_k p))
                  (heads_of (v_proj p) x (numheads p) (d_v p))
                  Hshape X0 X1 eq_refl eq_refl X0 X1 eq_refl eq_refl)
      as HP.
    unfold history_shaped, c1.
    cbn [_prev_k _prev_v set_prev_k set_prev_v hp]. exact HP.
Qed.

(** X7 (no recovery beyond the horizon).  Once the history of a module in
    cell mode has reached its horizon, every further step raises the
    horizon error, however many follow, and each of them is still appended:
    after [n] more steps the next one reports a history of
    [m + n + 1] entries.  Only a reset empties the history. *)
Theorem overflow_is_permanent
    (c : t) (batsize m : nat) (h : Z) (xs : list (tensor3 R))
    (x : tensor3 R) :
  well_formed (hp c) = true ->
  _cell_mode c = true -> _horizon c = Some h ->
  history_shaped c batsize m -> (h <= Z.of_nat m)%Z ->
  Forall (step_input (hp c) batsize) xs -> step_input (hp c) batsize x ->
  exists c' : t,
    forward x None None None (after_steps xs c)
    = (inl (HorizonExceeded h (m + length xs + 1)), c')
    /\ history_length (_prev_k c') = m + length xs + 1
    /\ history_length (_prev_v c') = m + length xs + 1.
Proof.
  intros Hwf Hcm Hh Hshape Hle Hxs Hx.
  revert c m Hwf Hcm Hh Hshape Hle Hxs Hx.
  induction xs as [| y ys IH]; intros c m Hwf Hcm Hh Hshape Hle Hxs Hx.
  - cbn [after_steps length]. rewrite Nat.add_0_r.
    destruct (forward_overflow c x batsize m h Hwf Hcm Hh Hshape Hx Hle)
      as [E Hs].
    eexists. split; [exact E |].
    unfold history_shaped in Hs.
    cbn [_prev_k _prev_v set_prev_k set_prev_v hp history_length] in *.
    tauto.
  - assert (Hy : step_input (hp c) batsize y)
      by (inversion Hxs; assumption).
    assert (Hys : Forall (step_input (hp c) batsize) ys)
      by (inversion Hxs; assumption).
    destruct (forward_overflow c y batsize m h Hwf Hcm Hh Hshape Hy Hle)
      as [E Hs].
    cbn [after_steps length]. rewrite E. cbn [snd].
    match goal with
    | |- context [after_steps ys ?c1] =>
        destruct (IH c1 (m + 1)) as (c' & E' & L1 & L2);
        try assumption; try reflexivity
    end.
    + lia.
    + exists c'. split; [rewrite E'; do 2 f_equal; f_equal; lia |].
      split; lia.
Qed.

Lemma overflow_is_permanent_witness :
  exists c' : t,
    forward (zeros3 1 1 2) None None None
            (after_steps [zeros3 1 1 2; zeros3 1 1 2]
                         (cell_core RelposFalse 0))
    = (inl (HorizonExceeded 0 (0 + 2 + 1)), c')
    /\ history_length (_prev_k c') = 0 + 2 + 1
    /\ history_length (_prev_v c') = 0 + 2 + 1.
Proof.
  apply (overflow_is_permanent (cell_core RelposFalse 0) 1 0 0
           [zeros3 1 1 2; zeros3 1 1 2] (zeros3 1 1 2)).
  - reflexivity.
  - reflexivity.
  - reflexivity.
  - reflexivity.
  - reflexivity.
  - repeat constructor.
  - repeat constructor.
Defined.

(** ** Relative positions outside the table *)

(** The lookup of a call with [q_len] queries and [k_len] keys leaves the
    table of [2 * maxlen] rows as soon as there are more than [maxlen]
    queries or more than [maxlen + 1] keys. *)
Lemma Embedding_forward_outside (e : Embedding) (dv : device)
    (maxlen : Z) (q_len k_len : nat) :
  Z.of_nat (num_embeddings e) = (2 * maxlen)%Z ->
  1 <= q_len -> q_len <= k_len ->
  (maxlen + 1 < Z.of_nat k_len)%Z \/ (maxlen < Z.of_nat q_len)%Z ->
  Embedding_forward e dv q_len k_len (relpos_index maxlen q_len k_len)
  = inl IndexError.
Proof.
  intros Hn Hq Hqk Hout. unfold Embedding_forward.
  replace (all_below q_len _) with false; [reflexivity |].
  symmetry.
  destruct Hout as [Hk | Hq'].
  - apply (all_below_false_at q_len (q_len - 1)); [lia |].
    apply (all_below_false_at k_len 0); [lia |].
    unfold relpos_index. apply andb_false_intro1.
    apply Z.leb_gt. lia.
  - apply (all_below_false_at q_len 0); [lia |].
    apply (all_below_false_at k_len (k_len - 1)); [lia |].
    unfold relpos_index. apply andb_false_intro2.
    apply Z.ltb_ge. lia.
Qed.

(** When the lookup for the sizes of a call raises, so does the
    relative-position branch; the cached entry stays as it was or is still
    coherent. *)
Lemma relpos_vectors_raises (c : t) (emb : Embedding) (x _k : tensor3 R)
    (batsize q_len k_len : nat) (e : exn) :
  relpos_emb (hp c) = Some emb -> relpos (hp c) <> RelposFalse ->
  cache_coherent c ->
  (if q_len <=? k_len
   then Embedding_forward emb (t3_device x) q_len k_len
          (relpos_index (maxlen (hp c)) q_len k_len)
   else inl AssertionError) = inl e ->
  exists c' : t,
    relpos_vectors x _k batsize q_len k_len c = (inl e, c')
    /\ same_but_cache c c' /\ cache_coherent c'.
Proof.
  intros He Hr Hcoh Hfail.
  destruct (refresh_determined c emb x q_len k_len He Hcoh)
    as (Hfst & Hsame & Hcoh' & _).
  rewrite Hfail in Hfst.
  exists (snd (refresh_relpos_cache emb x q_len k_len c)).
  split; [| split; assumption].
  unfold relpos_vectors. unmonad. rewrite He.
  assert (Hb : relpos_branch emb x _k batsize q_len k_len c
               = (inl e, snd (refresh_relpos_cache emb x q_len k_len c))).
  { unfold relpos_branch, bind.
    destruct (refresh_relpos_cache emb x q_len k_len c) as [[e' | u] s];
      cbn [fst snd] in *; [congruence | discriminate Hfst]. }
  destruct (relpos (hp c)); [contradiction Hr; reflexivity | |]; exact Hb.
Qed.

(** Outside cell mode a call whose relative-position lookup raises, raises
    the same: the projections of well-shaped inputs come first and
    succeed. *)
Lemma forward_relpos_raises (c : t) (emb : Embedding) (x : tensor3 R)
    (k : option (tensor3 R)) (mask : option (tensor2 bool)) (e : exn) :
  well_formed (hp c) = true ->
  relpos_emb (hp c) = Some emb -> relpos (hp c) <> RelposFalse ->
  _cell_mode c = false -> cache_coherent c ->
  t3_size2 x = indim (hp c) ->
  let _k := match k with None => x | Some k => k end in
  t3_size0 _k = t3_size0 x -> t3_size2 _k = indim (hp c) ->
  (if t3_size1 x <=? t3_size1 _k
   then Embedding_forward emb (t3_device x) (t3_size1 x) (t3_size1 _k)
          (relpos_index (maxlen (hp c)) (t3_size1 x) (t3_size1 _k))
   else inl AssertionError) = inl e ->
  exists c' : t,
    forward x k None mask c = (inl e, c')
    /\ same_but_cache c c' /\ cache_coherent c'.
Proof.
  intros Hwf He Hr Hcm Hcoh Hx _k Hk0 Hk2 Hfail.
  destruct (well_formed_layers _ Hwf) as (Q1 & Q2 & K1 & K2 & V1 & V2 & _).
  destruct (relpos_vectors_raises c emb x _k (t3_size0 x)
              (t3_size1 x) (t3_size1 _k) e He Hr Hcoh Hfail)
    as (c' & E & Hsame & Hcoh').
  exists c'. split; [| split; assumption].
  unfold forward, attend. unmonad. rewrite Hcm. cbv beta iota.
  fold _k.
  rewrite (project_ok (q_proj (hp c)) x) by congruence.
  rewrite <- Hk0.
  rewrite (project_ok (k_proj (hp c)) _k) by congruence.
  rewrite (project_ok (v_proj (hp c)) _k) by congruence.
  cbn [heads_of reshape4 t4_size1 fst snd].
  rewrite Hk0, E. reflexivity.
Qed.

(** X8 (sequence longer than the table).  With relative positions and
    outside cell mode, self-attention over more than [maxlen] positions
    raises [IndexError] at the table lookup; what the cache then holds is
    still coherent, and nothing else of the object has changed. *)
Theorem long_sequence_leaves_table
    (c : t) (emb : Embedding) (x : tensor3 R)
    (mask : option (tensor2 bool)) :
  well_formed (hp c) = true ->
  relpos_emb (hp c) = Some emb -> relpos (hp c) <> RelposFalse ->
  _cell_mode c = false -> cache_coherent c ->
  t3_size2 x = indim (hp c) ->
  (maxlen (hp c) < Z.of_nat (t3_size1 x))%Z ->
  exists c' : t,
    forward x None None mask c = (inl IndexError, c')
    /\ same_but_cache c c' /\ cache_coherent c'.
Proof.
  intros Hwf He Hr Hcm Hcoh Hx Hlong.
  destruct (well_formed_table _ _ Hwf He) as (_ & Hn & Hpos).
  apply (forward_relpos_raises c emb x None mask IndexError); try assumption;
    try reflexivity.
  cbv zeta. rewrite Nat.leb_refl.
  apply Embedding_forward_outside; [exact Hn | lia | lia | right; exact Hlong].
Qed.

Lemma long_sequence_leaves_table_witness :
  exists c' : t,
    forward (zeros3 1 5 2) None None None (small_core RelposTrue)
    = (inl IndexError, c')
    /\ same_but_cache (small_core RelposTrue) c' /\ cache_coherent c'.
Proof.
  destruct (relpos_emb (hp (small_core RelposTrue))) as [emb |] eqn:Ee;
    [| discriminate Ee].
  apply (long_sequence_leaves_table (small_core RelposTrue) emb
           (zeros3 1 5 2) None).
  - reflexivity.
  - exact Ee.
  - discriminate.
  - reflexivity.
  - exact I.
  - reflexivity.
  - reflexivity.
Defined.

(** X9 (query longer than the keys).  With relative positions and outside
    cell mode, a call whose keys [k] are fewer than the queries raises the
    assertion on the offset between them. *)
Theorem relpos_needs_as_many_keys
    (c : t) (emb : Embedding) (x kt : tensor3 R)
    (mask : option (tensor2 bool)) :
  well_formed (hp c) = true ->
  relpos_emb (hp c) = Some emb -> relpos (hp c) <> RelposFalse ->
  _cell_mode c = false -> cache_coherent c ->
  t3_size2 x = indim (hp c) ->
  t3_size0 kt = t3_size0 x -> t3_size2 kt = indim (hp c) ->
  t3_size1 kt < t3_size1 x ->
  exists c' : t,
    forward x (Some kt) None mask c = (inl AssertionError, c')
    /\ same_but_cache c c' /\ cache_coherent c'.
Proof.
  intros Hwf He Hr Hcm Hcoh Hx Hk0 Hk2 Hshort.
  apply (forward_relpos_raises c emb x (Some kt) mask AssertionError);
    try assumption.
  cbv zeta. apply Nat.leb_gt in Hshort. rewrite Hshort. reflexivity.
Qed.

Lemma relpos_needs_as_many_keys_witness :
  exists c' : t,
    forward (zeros3 1 2 2) (Some (zeros3 1 1 2)) None None
            (small_core RelposTrue)
    = (inl AssertionError, c')
    /\ same_but_cache (small_core RelposTrue) c' /\ cache_coherent c'.
Proof.
  destruct (relpos_emb (hp (small_core RelposTrue))) as [emb |] eqn:Ee;
    [| discriminate Ee].
  apply (relpos_needs_as_many_keys (small_core RelposTrue) emb
           (zeros3 1 2 2) (zeros3 1 1 2) None).
  - reflexivity.
  - exact Ee.
  - discriminate.
  - reflexivity.
  - exact I.
  - reflexivity.
  - reflexivity.
  - reflexivity.
  - cbn. lia.
Defined.

(** X10 (history longer than the table).  In cell mode with relative
    positions, a step that brings the history beyond [maxlen + 1] entries
    while the horizon still allows it raises [IndexError] at the table
    lookup, after the step has been appended to the history. *)
Theorem cell_history_leaves_table
    (c : t) (emb : Embedding) (x : tensor3 R) (batsize m : nat) (h : Z) :
  well_formed (hp c) = true ->
  relpos_emb (hp c) = Some emb -> relpos (hp c) <> RelposFalse ->
  _cell_mode c = true -> _horizon c = Some h -> cache_coherent c ->
  history_shaped c batsize m -> step_input (hp c) batsize x ->
  (Z.of_nat (m + 1) <= h)%Z ->
  (maxlen (hp c) + 1 < Z.of_nat (m + 1))%Z ->
  exists c' : t,
    forward x None None None c = (inl IndexError, c')
    /\ history_length (_prev_k c') = m + 1
    /\ history_length (_prev_v c') = m + 1.
Proof.
  intros Hwf He Hr Hcm Hh Hcoh Hshape Hx Hle Hlong.
  destruct (well_formed_table _ _ Hwf He) as (_ & Hn & Hpos).
  set (p := hp c).
  set (K := push (_prev_k c) (heads_of (k_proj p) x (numheads p) (d_k p))).
  set (V := push (_prev_v c) (heads_of (v_proj p) x (numheads p) (d_v p))).
  set (c1 := set_prev_v (Some V) (set_prev_k (Some K) c)).
  assert (Hfail : (if 1 <=? m + 1
                   then Embedding_forward emb (t3_device x) 1 (m + 1)
                          (relpos_index (maxlen (hp c1)) 1 (m + 1))
                   else inl AssertionError) = inl IndexError).
  { replace (1 <=? m + 1) with true by (symmetry; apply Nat.leb_le; lia).
    apply Embedding_forward_outside; [exact Hn | lia | lia |].
    left. exact Hlong. }
  destruct (relpos_vectors_raises c1 emb x x (t3_size0 x) 1 (m + 1)
              IndexError He Hr Hcoh Hfail)
    as (c' & E & Hsame & _).
  exists c'. split.
  - unfold forward.
    rewrite (attend_cell_prefix c x batsize m h _ _ Hwf Hcm Hh Hshape Hx).
    replace (Z.of_nat (m + 1) >? h)%Z with false
      by (symmetry; rewrite Z.gtb_ltb; apply Z.ltb_ge; lia).
    fold p K V c1. unfold bind at 1 2. rewrite E. reflexivity.
  - destruct Hsame as (_ & _ & _ & Pk & Pv & _).
    rewrite Pk, Pv. unfold c1.
    cbn [_prev_k _prev_v set_prev_k set_prev_v history_length].
    destruct Hx as (X0 & X1 & X2).
    pose proof (push_sizes c batsize m
                  (heads_of (k_proj p) x (numheads p) (d_k p))
                  (heads_of (v_proj p) x (numheads p) (d_v p))
                  Hshape X0 X1 eq_refl eq_refl X0 X1 eq_refl eq_refl)
      as (_ & P1 & _ & _ & _ & Q1 & _).
    split; assumption.
Qed.

Lemma cell_history_leaves_table_witness :
  let two := Tensor4 1 2 1 2 (fun _ _ _ _ => 0%R) in
  exists c' : t,
    forward (zeros3 1 1 2) None None None
            (set_prev_v (Some two) (set_prev_k (Some two)
                                      (short_table_core 5)))
    = (inl IndexError, c')
    /\ history_length (_prev_k c') = 2 + 1
    /\ history_length (_prev_v c') = 2 + 1.
Proof.
  intros two.
  destruct (relpos_emb (hp (short_table_core 5))) as [emb |] eqn:Ee;
    [| discriminate Ee].
  apply (cell_history_leaves_table
           (set_prev_v (Some two) (set_prev_k (Some two)
                                     (short_table_core 5)))
           emb (zeros3 1 1 2) 1 2 5).
  - reflexivity.
  - exact Ee.
  - discriminate.
  - reflexivity.
  - reflexivity.
  - exact I.
  - repeat split; reflexivity.
  - repeat split; reflexivity.
  - apply Z.leb_le. reflexivity.
  - reflexivity.
Defined.

(** ** The sinusoid table *)

Lemma sinusoid_table_inv (seqlen : Z) (dim : nat) (start : Z)
    (e : Embedding) :
  get_sinusoid_encoding_table seqlen dim start = inr e ->
  e = MkEmbedding (Z.to_nat (seqlen - start)) dim
        (fun r j =>
           let a := cal_angle dim (start + Z.of_nat r) j in
           if Nat.even j then sin a else cos a).
Proof.
  unfold get_sinusoid_encoding_table.
  destruct (Z.to_nat (seqlen - start) =? 0); [discriminate |].
  intros [= <-]. reflexivity.
Qed.


Lemma cal_angle_opp (dim : nat) (position : Z) (j : nat) :
  cal_angle dim (- position) j = (- cal_angle dim position j)%R.
Proof. unfold cal_angle. rewrite opp_IZR. unfold Rdiv. ring. Qed.

Lemma cal_angle_zero (dim j : nat) : cal_angle dim 0 j = 0%R.
Proof. unfold cal_angle, Rdiv. apply Rmult_0_l. Qed.



(** X12 (the table of relative positions).  In the table that [__init__]
    builds, with rows for the offsets [-maxlen .. maxlen-1], the row of
    offset 0 alternates 0 and 1, and the rows of two opposite offsets
    agree in the odd columns (cosines) and are opposite in the even
    columns (sines). *)
Theorem relative_table_is_symmetric (maxlen : Z) (dim : nat)
    (e : Embedding) :
  get_sinusoid_encoding_table maxlen dim (- maxlen) = inr e ->
  (forall j : nat,
      emb_weight e (Z.to_nat maxlen) j
      = if Nat.even j then 0%R else 1%R)
  /\ (forall (r : Z) (j : nat),
        (0 <= r < maxlen)%Z ->
        emb_weight e (Z.to_nat (maxlen - r)) j
        = if Nat.even j
          then (- emb_weight e (Z.to_nat (maxlen + r)) j)%R
          else emb_weight e (Z.to_nat (maxlen + r)) j).
Proof.
  intros H.
  assert (Hpos : (0 < maxlen)%Z).
  { unfold get_sinusoid_encoding_table in H.
    destruct (Nat.eqb_spec (Z.to_nat (maxlen - - maxlen)) 0);
      [discriminate H | lia]. }
  apply sinusoid_table_inv in H. subst e. cbn [emb_weight]. cbv zeta.
  split.
  - intros j.
    replace (- maxlen + Z.of_nat (Z.to_nat maxlen))%Z with 0%Z by lia.
    rewrite cal_angle_zero.
    destruct (Nat.even j); [apply sin_0 | apply cos_0].
  - intros r j Hr.
    replace (- maxlen + Z.of_nat (Z.to_nat (maxlen - r)))%Z with (- r)%Z
      by lia.
    replace (- maxlen + Z.of_nat (Z.to_nat (maxlen + r)))%Z with r by lia.
    rewrite cal_angle_opp.
    destruct (Nat.even j); [apply sin_neg | apply cos_neg].
Qed.

Lemma relative_table_is_symmetric_witness :
  exists e : Embedding,
    get_sinusoid_encoding_table 4 6 (-4) = inr e
    /\ emb_weight e (Z.to_nat 4) 1 = 1%R
    /\ emb_weight e (Z.to_nat (4 - 3)) 2
       = (- emb_weight e (Z.to_nat (4 + 3)) 2)%R.
Proof.
  destruct (get_sinusoid_encoding_table 4 6 (-4)) as [x | e] eqn:E;
    [discriminate E |].
  exists e. split; [reflexivity |].
  destruct (relative_table_is_symmetric 4 6 e E) as (H0 & Hs).
  split; [exact (H0 1) |].
  apply (Hs 3%Z 2). lia.
Defined.

(** ** What a call outside cell mode leaves alone *)

Lemma relpos_vectors_frame (x _k : tensor3 R) (batsize q_len k_len : nat)
    (c : t) :
  same_but_cache c (snd (relpos_vectors x _k batsize q_len k_len c)).
Proof.
  unfold relpos_vectors, relpos_branch, refresh_relpos_cache,
    fill_relpos_cache, relpos_projections.
  unmonad.
  repeat match goal with
         | |- context [match ?s with _ => _ end] =>
             lazymatch s with
             | context [match _ with _ => _ end] => fail
             | _ => destruct s
             end
         end;
    cbn; repeat split; reflexivity.
Qed.

(** X13 (outside cell mode).  A call outside cell mode, whether it returns
    or raises, changes nothing of the object but the relative-position
    cache and its counters: the parameters, the cell-mode settings and the
    key and value history left by earlier incremental steps stay as they
    were. *)
Theorem forward_outside_cell_mode_frame
    (c : t) (x : tensor3 R) (k v : option (tensor3 R))
    (mask : option (tensor2 bool)) :
  _cell_mode c = false ->
  same_but_cache c (snd (forward x k v mask c)).
Proof.
  intros Hcm. unfold forward, attend. unmonad. rewrite Hcm. cbv beta iota.
  repeat match goal with
         | |- context [match project ?l ?y ?b ?h ?d with _ => _ end] =>
             destruct (project l y b h d)
         end;
    try apply same_but_cache_refl.
  cbn [fst snd].
  match goal with
  | |- context [relpos_vectors ?a ?b ?n ?q ?kk c] =>
      pose proof (relpos_vectors_frame a b n q kk c) as Hf;
      destruct (relpos_vectors a b n q kk c) as [[e | rel] s]
  end; cbn [snd] in Hf; [exact Hf |].
  destruct (attention_weights _ _ _ _ _); [exact Hf |].
  cbn [fst snd]. exact Hf.
Qed.

Lemma forward_outside_cell_mode_frame_witness :
  let c := snd (set_cell_mode false None false
                  (after_steps [zeros3 1 1 2] (cell_core RelposTrue 2))) in
  history_length (_prev_k c) = 1
  /\ _prev_k (snd (forward (zeros3 1 2 2) None None None c)) = _prev_k c.
Proof.
  intros c. split; [reflexivity |].
  destruct (forward_outside_cell_mode_frame c (zeros3 1 2 2) None None None
              eq_refl) as (_ & _ & _ & Pk & _).
  exact Pk.
Defined.

(** ** The driver between sessions and outside cell mode *)

Section TS2S_sessions.

Variables X XMask Y YMask Ctx Out : Type.
Variables Enc Dec : Type.
Variable encoder_forward : X -> option XMask -> M Enc Ctx.
Variable decoder_forward :
  Y -> Ctx -> option YMask -> option XMask -> M Dec Out.

Let driver : Type := TS2S.t X XMask Ctx Enc Dec.
Let ts2s_forward := TS2S.forward encoder_forward decoder_forward.
Let ts2s_after := TS2S.after_calls encoder_forward decoder_forward.

(** X14 (reset between source sequences).  In cell mode, whatever context
    a session has cached, the first call after [rec_reset] runs the
    encoder on the [x] and [xmask] of that call: when the encoder returns,
    its output and [xmask] are cached and handed to the decoder; when it
    raises, the call raises the same and nothing is cached.  [rec_reset]
    itself leaves the encoder, the decoder and the cell-mode flag alone. *)
Theorem ts2s_rec_reset_reencodes
    (s : driver) (x : X) (y : Y) (xmask : option XMask)
    (ymask : option YMask) :
  TS2S._cell_mode s = true ->
  let s0 := snd (TS2S.rec_reset s) in
  TS2S.rec_reset s = (inr tt, s0)
  /\ TS2S.encoder s0 = TS2S.encoder s /\ TS2S.decoder s0 = TS2S.decoder s
  /\ TS2S._cell_mode s0 = true
  /\ (forall (ctx : Ctx) (e' : Enc),
         encoder_forward x xmask (TS2S.encoder s) = (inr ctx, e') ->
         ts2s_forward x y xmask ymask s0
         = TS2S.on_decoder (decoder_forward y ctx ymask xmask)
             (TS2S.set_ctxmask xmask
                (TS2S.set_x (Some x)
                   (TS2S.set_ctx (Some ctx) (TS2S.set_encoder e' s0)))))
  /\ (forall (e : exn) (e' : Enc),
         encoder_forward x xmask (TS2S.encoder s) = (inl e, e') ->
         ts2s_forward x y xmask ymask s0 = (inl e, TS2S.set_encoder e' s0)
         /\ TS2S._ctx (TS2S.set_encoder e' s0) = None).
Proof.
  intros Hc s0. subst s0. destruct s as [en de cm sx sc sm].
  cbn in Hc. subst cm. unfold TS2S.rec_reset. unmonad. cbn [snd].
  split; [reflexivity |]. split; [reflexivity |]. split; [reflexivity |].
  split; [reflexivity |]. split.
  - intros ctx e' He. cbn in He.
    unfold ts2s_forward, TS2S.forward, TS2S.on_encoder. unmonad. cbn.
    rewrite He. reflexivity.
  - intros e e' He. cbn in He. split; [| reflexivity].
    unfold ts2s_forward, TS2S.forward, TS2S.on_encoder. unmonad. cbn.
    rewrite He. reflexivity.
Qed.

(** Outside cell mode a call runs the encoder and never writes the three
    cache attributes. *)
Lemma ts2s_forward_uncached
    (s : driver) (x : X) (y : Y) (xmask : option XMask)
    (ymask : option YMask) :
  TS2S._cell_mode s = false ->
  ts2s_forward x y xmask ymask s
  = match encoder_forward x xmask (TS2S.encoder s) with
    | (inl e, e') => (inl e, TS2S.set_encoder e' s)
    | (inr ctx, e') =>
        TS2S.on_decoder (decoder_forward y ctx ymask xmask)
                        (TS2S.set_encoder e' s)
    end.
Proof.
  intros Hc. unfold ts2s_forward, TS2S.forward. unmonad. rewrite Hc.
  unfold TS2S.on_encoder.
  destruct (encoder_forward x xmask (TS2S.encoder s)) as [[e | ctx] e'];
    reflexivity.
Qed.

Lemma ts2s_forward_uncached_frame
    (s : driver) (x : X) (y : Y) (xmask : option XMask)
    (ymask : option YMask) :
  TS2S._cell_mode s = false ->
  let s' := snd (ts2s_forward x y xmask ymask s) in
  TS2S._cell_mode s' = false /\ TS2S._ctx s' = TS2S._ctx s
  /\ TS2S._x s' = TS2S._x s /\ TS2S._ctxmask s' = TS2S._ctxmask s.
Proof.
  intros Hc. rewrite (ts2s_forward_uncached s x y xmask ymask Hc).
  destruct (encoder_forward x xmask (TS2S.encoder s)) as [[e | ctx] e'].
  - cbn. auto.
  - unfold TS2S.on_decoder.
    destruct (decoder_forward y ctx ymask xmask _) as [r d]. cbn. auto.
Qed.

(** X15 (outside cell mode).  Outside cell mode every call runs the
    encoder on its own [x] and [xmask] and hands the decoder that output
    and that mask; however many calls are made, returning or raising, the
    cached context, input and mask of the driver stay as they were. *)
Theorem ts2s_outside_cell_mode
    (calls : list (X * Y * option XMask * option YMask))
    (s : driver) (x : X) (y : Y) (xmask : option XMask)
    (ymask : option YMask) :
  TS2S._cell_mode s = false ->
  let s' := ts2s_after calls s in
  TS2S._cell_mode s' = false /\ TS2S._ctx s' = TS2S._ctx s
  /\ TS2S._x s' = TS2S._x s /\ TS2S._ctxmask s' = TS2S._ctxmask s
  /\ forall (ctx : Ctx) (e' : Enc),
       encoder_forward x xmask (TS2S.encoder s') = (inr ctx, e') ->
       ts2s_forward x y xmask ymask s'
       = TS2S.on_decoder (decoder_forward y ctx ymask xmask)
                         (TS2S.set_encoder e' s').
Proof.
  intros Hc s'.
  assert (Hframe : TS2S._cell_mode s' = false /\ TS2S._ctx s' = TS2S._ctx s
                   /\ TS2S._x s' = TS2S._x s
                   /\ TS2S._ctxmask s' = TS2S._ctxmask s).
  { subst s'. revert s Hc.
    induction calls as [| [[[x0 y0] xm0] ym0] rest IH]; intros s Hc.
    - cbn. auto.
    - cbn [ts2s_after TS2S.after_calls].
      destruct (ts2s_forward_uncached_frame s x0 y0 xm0 ym0 Hc)
        as (Hc' & Hx' & Hi' & Hm').
      destruct (IH _ Hc') as (Hc2 & Hx2 & Hi2 & Hm2).
      unfold ts2s_after, ts2s_forward in *.
      repeat split; congruence. }
  destruct Hframe as (Hc' & Hx' & Hi' & Hm').
  repeat split; try assumption.
  intros ctx e' He.
  rewrite (ts2s_forward_uncached s' x y xmask ymask Hc'), He. reflexivity.
Qed.

End TS2S_sessions.

Lemma ts2s_rec_reset_reencodes_witness :
  let s1 := snd (TS2S.forward toy_encoder toy_decoder 5 1 (Some true) None
                   toy_driver) in
  let s0 := snd (TS2S.rec_reset s1) in
  TS2S._ctx s1 = Some 10
  /\ TS2S.forward toy_encoder toy_decoder 7 2 None None s0
     = TS2S.on_decoder (toy_decoder 2 14 None None)
         (TS2S.set_ctxmask None
            (TS2S.set_x (Some 7)
               (TS2S.set_ctx (Some 14) (TS2S.set_encoder 2 s0)))).
Proof.
  intros s1 s0. split; [reflexivity |].
  destruct (ts2s_rec_reset_reencodes nat bool nat bool nat (nat * option bool)
              nat nat toy_encoder toy_decoder s1 7 2 None None eq_refl)
    as (_ & _ & _ & _ & Hok & _).
  apply (Hok 14 2). reflexivity.
Defined.

Lemma ts2s_outside_cell_mode_witness :
  let s := TS2S.set_cell_mode_attr false toy_driver in
  let s' := TS2S.after_calls toy_encoder toy_decoder
              [(5, 1, Some true, None); (7, 2, None, None)] s in
  TS2S._ctx s' = None
  /\ TS2S.forward toy_encoder toy_decoder 9 3 (Some false) None s'
     = TS2S.on_decoder (toy_decoder 3 18 None (Some false))
                       (TS2S.set_encoder 3 s').
Proof.
  intros s s'.
  destruct (ts2s_outside_cell_mode nat bool nat bool nat (nat * option bool)
              nat nat toy_encoder toy_decoder
              [(5, 1, Some true, None); (7, 2, None, None)] s 9 3
              (Some false) None eq_refl)
    as (_ & Hx & _ & _ & Hcall).
  split; [exact Hx |].
  apply (Hcall 18 3). reflexivity.
Defined.

(** ** Causality of the outputs *)












Lemma table_covers_square (p : params) (n m : nat) :
  table_covers p n n = true -> m <= n -> table_covers p m m = true.
Proof.
  intros Hn Hm. unfold table_covers in *.
  destruct (relpos_emb p) as [e |]; [| reflexivity].
  destruct (relpos p); [reflexivity | |];
    rewrite !andb_true_iff, Nat.leb_le, !Z.leb_le in *; lia.
Qed.





(** ** Incremental decoding, position by position *)





(** ** The decoder: position offset and cell mode *)

Section Decoder_protocol.

Variables Tens Ctx Mask CtxMask Layer : Type.
Variable size1 : Tens -> nat.
Variable add_positions : nat -> Tens -> result Tens.
Variable layer_forward :
  Tens -> option Ctx -> option Mask -> option CtxMask -> M Layer Tens.
Variable layer_set_cell_mode : bool -> option Z -> bool -> M Layer unit.

Let decoder : Type := TransformerDecoder.t Layer.
Let dec_forward :=
  TransformerDecoder.forward size1 add_positions layer_forward.
Let dec_after :=
  TransformerDecoder.after_calls size1 add_positions layer_forward.
Let dec_returned :=
  TransformerDecoder.returned_calls size1 add_positions layer_forward.
Let dec_set_cell_mode :=
  TransformerDecoder.set_cell_mode layer_set_cell_mode.

(** One call: everything but the layers and the offset stays, and the
    offset advances by one exactly when the call returns in cell mode. *)
Lemma decoder_forward_step
    (s s' : decoder) (x : Tens) (ctx : option Ctx) (mask : option Mask)
    (ctxmask : option CtxMask) (r : result Tens) :
  dec_forward x ctx mask ctxmask s = (r, s') ->
  TransformerDecoder.maxlen s' = TransformerDecoder.maxlen s
  /\ TransformerDecoder.posemb s' = TransformerDecoder.posemb s
  /\ TransformerDecoder._lm_mode s' = TransformerDecoder._lm_mode s
  /\ TransformerDecoder._cell_mode s' = TransformerDecoder._cell_mode s
  /\ TransformerDecoder._posoffset s'
     = TransformerDecoder._posoffset s
       + match r with
         | inr _ => if TransformerDecoder._cell_mode s then 1 else 0
         | inl _ => 0
         end.
Proof.
  destruct s as [ml pe ls lm cm off].
  unfold dec_forward, TransformerDecoder.forward. unmonad.
  cbn [TransformerDecoder.posemb TransformerDecoder.maxlen
       TransformerDecoder._posoffset TransformerDecoder.layers
       TransformerDecoder._cell_mode TransformerDecoder._lm_mode].
  intros H.
  repeat (cbn [TransformerDecoder._cell_mode TransformerDecoder._posoffset
               TransformerDecoder.set_layers] in H;
          match type of H with
          | context [match ?t with _ => _ end] =>
              lazymatch t with
              | context [match _ with _ => _ end] => fail
              | _ => destruct t
              end
          end);
    injection H as <- <-; cbn; repeat split; lia.
Qed.

Lemma decoder_after_calls_frame
    (calls : list (Tens * option Ctx * option Mask * option CtxMask))
    (s : decoder) :
  TransformerDecoder.maxlen (dec_after calls s) = TransformerDecoder.maxlen s
  /\ TransformerDecoder.posemb (dec_after calls s)
     = TransformerDecoder.posemb s
  /\ TransformerDecoder._lm_mode (dec_after calls s)
     = TransformerDecoder._lm_mode s
  /\ TransformerDecoder._cell_mode (dec_after calls s)
     = TransformerDecoder._cell_mode s
  /\ TransformerDecoder._posoffset (dec_after calls s)
     = TransformerDecoder._posoffset s
       + if TransformerDecoder._cell_mode s then dec_returned calls s
         else 0.
Proof.
  revert s.
  induction calls as [| [[[x ctx] mask] ctxmask] rest IH]; intros s.
  - cbn. repeat split; try reflexivity.
    destruct (TransformerDecoder._cell_mode s); lia.
  - cbn [dec_after dec_returned TransformerDecoder.after_calls
         TransformerDecoder.returned_calls].
    fold dec_forward dec_after dec_returned.
    destruct (dec_forward x ctx mask ctxmask s) as [r s'] eqn:E.
    destruct (decoder_forward_step s s' x ctx mask ctxmask r E)
      as (M1 & P1 & L1 & C1 & O1).
    destruct (IH s') as (M2 & P2 & L2 & C2 & O2).
    cbn [fst snd].
    repeat split; try congruence.
    rewrite O2, O1, C1.
    destruct (TransformerDecoder._cell_mode s), r; lia.
Qed.

(** X18 (position offset).  Over any list of calls of the decoder,
    returning or raising, [maxlen], the presence of the position table and
    the two mode flags stay as they were; in cell mode the position offset
    has advanced by the number of calls that returned (by one per call,
    whatever the number of positions in its input), and outside cell mode
    it has not moved. *)
Theorem decoder_posoffset_counts
    (calls : list (Tens * option Ctx * option Mask * option CtxMask))
    (s : decoder) :
  let s' := dec_after calls s in
  TransformerDecoder.maxlen s' = TransformerDecoder.maxlen s
  /\ TransformerDecoder.posemb s' = TransformerDecoder.posemb s
  /\ TransformerDecoder._lm_mode s' = TransformerDecoder._lm_mode s
  /\ TransformerDecoder._cell_mode s' = TransformerDecoder._cell_mode s
  /\ TransformerDecoder._posoffset s'
     = if TransformerDecoder._cell_mode s
       then TransformerDecoder._posoffset s + dec_returned calls s
       else TransformerDecoder._posoffset s.
Proof.
  cbv zeta.
  destruct (decoder_after_calls_frame calls s) as (M1 & P1 & L1 & C1 & O1).
  repeat split; try assumption.
  rewrite O1. destruct (TransformerDecoder._cell_mode s); lia.
Qed.

(** A call that asks for more positions than are left is refused at the
    assertion, before the table or any layer is used. *)
Lemma decoder_forward_refused
    (s : decoder) (x : Tens) (ctx : option Ctx) (mask : option Mask)
    (ctxmask : option CtxMask) :
  TransformerDecoder.posemb s = true ->
  (TransformerDecoder.maxlen s
   - Z.of_nat (TransformerDecoder._posoffset s) < Z.of_nat (size1 x))%Z ->
  dec_forward x ctx mask ctxmask s = (inl AssertionError, s).
Proof.
  intros Hpe Hlt. unfold dec_forward, TransformerDecoder.forward. unmonad.
  rewrite Hpe.
  replace (Z.of_nat (size1 x)
           <=? TransformerDecoder.maxlen s
               - Z.of_nat (TransformerDecoder._posoffset s))%Z
    with false by (symmetry; apply Z.leb_gt; exact Hlt).
  reflexivity.
Qed.

(** X19 (positions run out).  With a table of absolute positions and in
    cell mode, once the calls that returned have used up the [maxlen]
    positions, every further call on an input of at least one position
    raises the assertion on the positions left and leaves the decoder, its
    layers included, exactly as it was. *)
Theorem decoder_positions_run_out
    (calls : list (Tens * option Ctx * option Mask * option CtxMask))
    (s : decoder) (x : Tens) (ctx : option Ctx) (mask : option Mask)
    (ctxmask : option CtxMask) :
  TransformerDecoder.posemb s = true ->
  TransformerDecoder._cell_mode s = true ->
  (TransformerDecoder.maxlen s
   <= Z.of_nat (TransformerDecoder._posoffset s + dec_returned calls s))%Z ->
  1 <= size1 x ->
  dec_forward x ctx mask ctxmask (dec_after calls s)
  = (inl AssertionError, dec_after calls s).
Proof.
  intros Hpe Hcm Hfull Hx.
  destruct (decoder_after_calls_frame calls s) as (M1 & P1 & _ & _ & O1).
  rewrite Hcm in O1.
  apply decoder_forward_refused; [congruence |].
  rewrite M1, O1. lia.
Qed.

(** [each_layer] when every layer returns, and when one raises. *)
Lemma each_layer_all (m : M Layer unit) (ls : list Layer) :
  (forall l, In l ls -> fst (m l) = inr tt) ->
  TransformerDecoder.each_layer m ls
  = (inr tt, map (fun l => snd (m l)) ls).
Proof.
  induction ls as [| l rest IH]; intros H; [reflexivity |].
  cbn [TransformerDecoder.each_layer map].
  pose proof (H l (or_introl eq_refl)) as Hl.
  destruct (m l) as [[e | u] l']; cbn [fst snd] in *; [discriminate |].
  rewrite IH by (intros l0 Hin; apply H; right; exact Hin).
  reflexivity.
Qed.

Lemma each_layer_raises (m : M Layer unit) (before after : list Layer)
    (l l' : Layer) (e : exn) :
  (forall l0, In l0 before -> fst (m l0) = inr tt) ->
  m l = (inl e, l') ->
  TransformerDecoder.each_layer m (before ++ l :: after)
  = (inl e, map (fun l0 => snd (m l0)) before ++ l' :: after).
Proof.
  induction before as [| b rest IH]; intros H Hl.
  - cbn [app map TransformerDecoder.each_layer]. rewrite Hl. reflexivity.
  - cbn [app map TransformerDecoder.each_layer].
    pose proof (H b (or_introl eq_refl)) as Hb.
    destruct (m b) as [[e0 | u] b']; cbn [fst snd] in *; [discriminate |].
    rewrite IH; [reflexivity | | exact Hl].
    intros l0 Hin. apply H. right. exact Hin.
Qed.

(** X20 (cell mode through the layers).  [set_cell_mode] sets the two
    flags of the decoder first and then calls [set_cell_mode] of each layer
    in order.  When every layer accepts, all of them have been switched;
    when a layer raises, the call raises the same with the decoder's flags
    already set, the layers before it switched and the layers after it
    untouched. *)
Theorem decoder_set_cell_mode_spreads
    (s : decoder) (val : bool) (horizon : option Z) (lm_mode : bool) :
  let m := layer_set_cell_mode val horizon lm_mode in
  let flagged :=
    TransformerDecoder.set_lm_mode lm_mode
      (TransformerDecoder.set_cell_mode_attr val s) in
  ((forall l, In l (TransformerDecoder.layers s) -> fst (m l) = inr tt) ->
   dec_set_cell_mode val horizon lm_mode s
   = (inr tt,
      TransformerDecoder.set_layers
        (map (fun l => snd (m l)) (TransformerDecoder.layers s)) flagged))
  /\ (forall (before after : list Layer) (l l' : Layer) (e : exn),
         TransformerDecoder.layers s = before ++ l :: after ->
         (forall l0, In l0 before -> fst (m l0) = inr tt) ->
         m l = (inl e, l') ->
         dec_set_cell_mode val horizon lm_mode s
         = (inl e,
            TransformerDecoder.set_layers
              (map (fun l0 => snd (m l0)) before ++ l' :: after) flagged)).
Proof.
  cbv zeta. split.
  - intros Hall.
    unfold dec_set_cell_mode, TransformerDecoder.set_cell_mode. unmonad.
    cbn [TransformerDecoder.layers TransformerDecoder.set_lm_mode
         TransformerDecoder.set_cell_mode_attr].
    rewrite each_layer_all by exact Hall. reflexivity.
  - intros before after l l' e Hls Hbefore Hl.
    unfold dec_set_cell_mode, TransformerDecoder.set_cell_mode. unmonad.
    cbn [TransformerDecoder.layers TransformerDecoder.set_lm_mode
         TransformerDecoder.set_cell_mode_attr].
    rewrite Hls, (each_layer_raises _ before after l l' e Hbefore Hl).
    reflexivity.
Qed.

End Decoder_protocol.
